(** * masks2contours/utils.py: a shallow embedding

    The point matrices of [utils.py] are numpy arrays of float64.  They are
    embedded as lists of rows of primitive binary64 floats, so the
    definitions below run (with [vm_compute]) on the numbers the Python code
    sees, NaN, infinities and signed zeros included.  A Python exception is
    an explicit error value, threaded through a small error monad.  The
    numpy and scipy routines the module calls are embedded by what they
    return and raise; [np.linalg.svd] alone is a parameter. *)

From Stdlib Require Import Floats List ZArith Lia Bool PeanoNat.
Import ListNotations.

(** ** Python exceptions and results *)

Inductive exn : Set :=
| ValueError
| TypeError
| IndexError
| AxisError
| LinAlgError.

Inductive result (A : Type) : Type :=
| Ok (a : A)
| Raise (e : exn).

Arguments Ok {A} a.
Arguments Raise {A} e.

Definition bind {A B : Type} (r : result A) (k : A -> result B) : result B :=
  match r with
  | Ok a => k a
  | Raise e => Raise e
  end.

Notation "x <- r ;; k" := (bind r (fun x => k))
  (at level 61, r at next level, right associativity).

(** [for x in xs: acc = body acc x], stopping at the first exception. *)
Fixpoint for_each {A S : Type} (xs : list A) (body : S -> A -> result S)
  (acc : S) : result S :=
  match xs with
  | [] => Ok acc
  | x :: xs' => acc' <- body acc x ;; for_each xs' body acc'
  end.

Definition zipWith {A B C : Type} (f : A -> B -> C) (xs : list A)
  (ys : list B) : list C :=
  map (fun p => f (fst p) (snd p)) (combine xs ys).

(** ** The fragment of numpy that utils.py calls *)

Module np.

Definition vec := list float.
Definition matrix := list vec.

Definition of_nat (n : nat) : float :=
  PrimFloat.of_uint63 (Uint63.of_Z (Z.of_nat n)).

(** [a.shape[0]], [a.shape[1]] and [a.size] of a two-axis array.  A matrix
    with no row keeps no column count; the code never reads it there. *)
Definition shape0 (a : matrix) : nat := length a.
Definition shape1 (a : matrix) : nat := length (hd [] a).
Definition size (a : matrix) : nat := length (concat a).

(** [a[i, :]], for [0 <= i < a.shape[0]]. *)
Definition row (a : matrix) (i : nat) : vec := nth i a [].

(** Elementwise [a - b] on rows of the same length. *)
Definition sub (a b : vec) : vec := zipWith PrimFloat.sub a b.

(** [np.add.reduce]: the elements are added from left to right.  numpy
    groups the additions of a long array in blocks, which can change the last
    bit of a sum; the inputs evaluated below have sums that are exact or far
    from any threshold. *)
Definition sum (l : vec) : float := fold_left PrimFloat.add l 0%float.

(** [np.mean]: an empty input gives [0/0], a NaN (numpy only warns). *)
Definition mean (l : vec) : float := (sum l / of_nat (length l))%float.

(** [np.std(l, ddof)]: the divisor is [max(n - ddof, 0)]. *)
Definition std (ddof : nat) (l : vec) : float :=
  let arrmean := mean l in
  let x := map (fun v => (v - arrmean)%float) l in
  let x2 := map (fun v => (v * v)%float) x in
  PrimFloat.sqrt (sum x2 / of_nat (length l - ddof))%float.

(** [np.linalg.norm] of a one-axis array: [sqrt(dot(x, x))]. *)
Definition linalg_norm (x : vec) : float :=
  PrimFloat.sqrt (sum (map (fun v => (v * v)%float) x)).

Definition any (mask : list bool) : bool := existsb (fun b => b) mask.

(** [np.nonzero(mask)[0]]: the positions that hold [True], ascending. *)
Fixpoint nonzero_from (i : Z) (mask : list bool) : list Z :=
  match mask with
  | [] => []
  | b :: mask' =>
      if b then i :: nonzero_from (i + 1) mask' else nonzero_from (i + 1) mask'
  end.

Definition nonzero (mask : list bool) : list Z := nonzero_from 0 mask.

(** [np.argmax] as numpy's float loop computes it: the running maximum [mp]
    is replaced when [not (x <= mp)], and the scan stops at a NaN. *)
Fixpoint argmax_from (l : vec) (i : nat) (mp : float) (best : nat) : nat :=
  match l with
  | [] => best
  | x :: l' =>
      if PrimFloat.is_nan mp then best
      else if negb (x <=? mp)%float then argmax_from l' (S i) x i
      else argmax_from l' (S i) mp best
  end.

Definition argmax (l : vec) : result nat :=
  match l with
  | [] => Raise ValueError
  | x :: l' => Ok (argmax_from l' 1 x 0)
  end.

(** [np.argmin], the same loop with [not (x >= mp)]. *)
Fixpoint argmin_from (l : vec) (i : nat) (mp : float) (best : nat) : nat :=
  match l with
  | [] => best
  | x :: l' =>
      if PrimFloat.is_nan mp then best
      else if negb (mp <=? x)%float then argmin_from l' (S i) x i
      else argmin_from l' (S i) mp best
  end.

Definition argmin (l : vec) : result nat :=
  match l with
  | [] => Raise ValueError
  | x :: l' => Ok (argmin_from l' 1 x 0)
  end.

(** What [np.delete] accepts as its second argument in utils.py: a Python
    list of integers, an integer ndarray, or a boolean mask. *)
Inductive index_arg : Type :=
| IdxList (l : list Z)
| IdxArray (l : list Z)
| Mask (m : list bool).

(** A Python index into an axis of length [n]: negative indices count from
    the end, anything else out of range raises. *)
Definition normalize_index (n : nat) (i : Z) : result nat :=
  if ((0 <=? i) && (i <? Z.of_nat n))%Z then Ok (Z.to_nat i)
  else if ((- Z.of_nat n <=? i) && (i <? 0))%Z then Ok (Z.to_nat (i + Z.of_nat n))
  else Raise IndexError.

Fixpoint keep_unlisted {A : Type} (i : nat) (arr : list A) (drop : list nat)
  : list A :=
  match arr with
  | [] => []
  | a :: arr' =>
      if existsb (Nat.eqb i) drop then keep_unlisted (S i) arr' drop
      else a :: keep_unlisted (S i) arr' drop
  end.

Fixpoint keep_unmasked {A : Type} (arr : list A) (m : list bool) : list A :=
  match arr, m with
  | a :: arr', b :: m' =>
      if b then keep_unmasked arr' m' else a :: keep_unmasked arr' m'
  | _, _ => []
  end.

(** [np.delete(arr, obj, axis=0)] on an array with at least one axis. *)
Definition delete {A : Type} (arr : list A) (obj : index_arg)
  : result (list A) :=
  match obj with
  | IdxList l | IdxArray l =>
      drop <- for_each l
                (fun acc i => k <- normalize_index (length arr) i ;; Ok (k :: acc))
                [] ;;
      Ok (keep_unlisted 0 arr drop)
  | Mask m =>
      if length m =? length arr then Ok (keep_unmasked arr m)
      else Raise ValueError
  end.

End np.

Import np.
Open Scope float_scope.

(** ** SequenceOutlierAnalyzer: pointDistances, getRVinsertIndices,
       deleteHelper, removeFarPoints *)

(** [pointDistances]: entry [i] is the distance from point [i] to point
    [i + 1]; the last entry is the distance from the last point back to the
    first. *)
Definition pointDistances (points : matrix) : vec :=
  let numPts := shape0 points in
  map (fun i =>
         if (i =? numPts - 1)%nat
         then linalg_norm (sub (row points i) (row points 0))
         else linalg_norm (sub (row points (i + 1)) (row points i)))
      (seq 0 numPts).

(** [getRVinsertIndices]: the pair of indices around the largest cyclic
    distance when some distance exceeds mean + 3 * std (ddof = 1), and the
    empty array otherwise. *)
Definition getRVinsertIndices (points : matrix) : result (list Z) :=
  let distances := pointDistances points in
  let upperThreshold := mean distances + 3 * std 1 distances in
  let largeDistExists := any (map (fun d => upperThreshold <? d) distances) in
  if largeDistExists then
    largestDistIndex <- argmax distances ;;
    if (Z.of_nat largestDistIndex =? Z.of_nat (length points) - 1)%Z
    then Ok [0%Z; Z.of_nat largestDistIndex]
    else Ok [Z.of_nat largestDistIndex; (Z.of_nat largestDistIndex + 1)%Z]
  else Ok [].

(** [deleteHelper(arr, indices, axis = 0)].  [arr_size] is [arr.size] (or
    [len(arr)] for a list).  [emptyNdarrayCheck] is false on a Python list of
    indices, so only an empty ndarray of indices returns [arr] early. *)
Definition emptyNdarrayCheck_indices (indices : index_arg) : bool :=
  match indices with
  | IdxList _ => false
  | IdxArray l => (length l =? 0)%nat
  | Mask m => (length m =? 0)%nat
  end.

Definition deleteHelper {A : Type} (arr_size : list A -> nat) (arr : list A)
  (indices : index_arg) : result (list A) :=
  if (arr_size arr =? 0)%nat then Ok arr
  else if emptyNdarrayCheck_indices indices then Ok arr
  else delete arr indices.

(** The loop of [removeFarPoints] over [i = 0 .. len(far_indices) - 2]. *)
Definition far_at (far_indices : list Z) (i : nat) : Z := nth i far_indices 0%Z.

Definition removeFarPoints_step (oldPoints : matrix) (far_indices : list Z)
  (indicesToRemove : list Z) (i : nat) : list Z :=
  if ((far_at far_indices i =? 0)
      && (last far_indices 0 =? Z.of_nat (size oldPoints) - 1))%Z
  then indicesToRemove ++ [far_at far_indices i]
  else if (far_at far_indices (i + 1) - far_at far_indices i =? 1)%Z
  then indicesToRemove ++ [far_at far_indices (i + 1)]
  else indicesToRemove.

Definition far_indices_of (oldPoints : matrix) : list Z :=
  let distances := pointDistances oldPoints in
  nonzero (map (fun d => mean distances + 2 * std 0 distances <? d) distances).

Definition indicesToRemove_of (oldPoints : matrix) (far_indices : list Z)
  : list Z :=
  fold_left (removeFarPoints_step oldPoints far_indices)
            (seq 0 (length far_indices - 1)) [].

Definition removeFarPoints (oldPoints : matrix) : result matrix :=
  if (shape0 oldPoints <=? 2)%nat then Ok oldPoints
  else
    let far_indices := far_indices_of oldPoints in
    if (1 <? length far_indices)%nat
    then deleteHelper size oldPoints
           (IdxList (indicesToRemove_of oldPoints far_indices))
    else Ok oldPoints.

(** ** RowSetOps: sharedRows, removeZerorows *)

(** [np.all(r1 == r2)] on two rows of the same length. *)
Definition row_equal (r1 r2 : vec) : bool :=
  forallb (fun p => fst p =? snd p) (combine r1 r2).

Definition mem_nat (i : nat) (l : list nat) : bool := existsb (Nat.eqb i) l.

(** The body of the inner loop of [sharedRows], at [(i, j)]. *)
Definition sharedRows_body (arr1 arr2 : matrix) (i : nat)
  (st : list nat * list nat) (j : nat) : list nat * list nat :=
  let (sharedIndicesArr1, sharedIndicesArr2) := st in
  if mem_nat i sharedIndicesArr1 || mem_nat j sharedIndicesArr2 then st
  else if row_equal (row arr1 i) (row arr2 j)
  then (sharedIndicesArr1 ++ [i], sharedIndicesArr2 ++ [j])
  else st.

Definition sharedRows_outer (arr1 arr2 : matrix) (st : list nat * list nat)
  (i : nat) : list nat * list nat :=
  fold_left (sharedRows_body arr1 arr2 i) (seq 0 (shape0 arr2)) st.

Definition sharedIndices (arr1 arr2 : matrix) : list nat * list nat :=
  fold_left (sharedRows_outer arr1 arr2) (seq 0 (shape0 arr1)) ([], []).

(** [sharedRows(arr1, arr2)]; [None] is Python's [None]. *)
Definition sharedRows (arr1 arr2 : option matrix)
  : result (matrix * list nat * list nat) :=
  match arr1, arr2 with
  | Some a1, Some a2 =>
      if (size a1 =? 0)%nat || (size a2 =? 0)%nat then Ok ([], [], [])
      else if negb (shape1 a1 =? shape1 a2)%nat then Raise ValueError
      else
        let (sharedIndicesArr1, sharedIndicesArr2) := sharedIndices a1 a2 in
        Ok (map (row a1) sharedIndicesArr1, sharedIndicesArr1, sharedIndicesArr2)
  | _, _ => Ok ([], [], [])
  end.

(** [arr[np.any(arr, axis = 1), :]]: a NaN counts as non-zero. *)
Definition removeZerorows (arr : matrix) : matrix :=
  filter (fun r => existsb (fun x => negb (x =? 0)) r) arr.

(** ** NearestNeighborMatcher: calcApex, getLAinsert *)

Definition euclidean (a b : vec) : float := linalg_norm (sub a b).

(** [scipy.spatial.distance.cdist(XA, XB)].  A matrix without rows keeps no
    column count here; the column check is made when both have rows, and
    without rows the caller's [argmin] raises the same [ValueError]. *)
Definition cdist (XA XB : matrix) : result matrix :=
  match XA, XB with
  | _ :: _, _ :: _ =>
      if negb (shape1 XA =? shape1 XB)%nat then Raise ValueError
      else Ok (map (fun a => map (euclidean a) XB) XA)
  | _, _ => Ok (map (fun a => map (euclidean a) XB) XA)
  end.

Definition calcApex (epiPts1 epiPts2 : matrix) : result vec :=
  let _epiPts1 := removeZerorows epiPts1 in
  let _epiPts2 := removeZerorows epiPts2 in
  dist <- cdist _epiPts1 _epiPts2 ;;
  flat <- argmin (concat dist) ;;
  (* np.unravel_index(flat, dist.shape)[0] *)
  let apexIndex := (flat / shape0 _epiPts2)%nat in
  Ok (row epiPts1 apexIndex).

Definition all_finite (a : matrix) : bool :=
  forallb (forallb PrimFloat.is_finite) a.

(** [KDTree(data).query(x)[0]]: for every row of [x] the distance to its
    nearest row of [data] (infinity when [data] has no row).  scipy refuses
    data or queries that are not finite, and queries of another width. *)
Definition nearest_distance (data : matrix) (q : vec) : float :=
  fold_left (fun best p => let d := euclidean q p in
                           if d <? best then d else best)
            data infinity.

Definition KDTree_query (data x : matrix) : result vec :=
  if negb (all_finite data) then Raise ValueError
  else if negb (all_finite x) then Raise ValueError
  else
    match data, x with
    | _ :: _, _ :: _ =>
        if negb (shape1 x =? shape1 data)%nat then Raise ValueError
        else Ok (map (nearest_distance data) x)
    | _, _ => Ok (map (nearest_distance data) x)
    end.

Definition getLAinsert (inserts sep_points : matrix) : result vec :=
  dist <- KDTree_query sep_points inserts ;;
  k <- argmin dist ;;
  Ok (row inserts k).

(** ** TemporalResampler: interpTime *)

(** A three-axis array: its shape and its entries [a[f, i, j]]. *)
Record ndarray3 : Type := mk_ndarray3 {
  shape3_0 : nat;
  shape3_1 : nat;
  shape3_2 : nat;
  at3 : nat -> nat -> nat -> float
}.

(** The second positional argument of [np.zeros] is the dtype: numpy reads
    [float] (the default) and refuses to read a Python integer as one. *)
Inductive dtype_arg : Set :=
| dtype_default
| dtype_int (n : Z).

Definition np_zeros (shape : nat) (dtype : dtype_arg) : result vec :=
  match dtype with
  | dtype_default => Ok (repeat 0 shape)
  | dtype_int _ => Raise TypeError
  end.

(** [np.squeeze] of a one-axis array drops an axis of length 1. *)
Inductive squeezed : Type :=
| ZeroDim (x : float)
| OneDim (l : vec).

Definition np_squeeze (l : vec) : squeezed :=
  match l with
  | [x] => ZeroDim x
  | _ => OneDim l
  end.

(** [np.linspace(start, stop, num)], end point included. *)
Definition np_linspace (start stop : float) (num : nat) : vec :=
  let div := (num - 1)%nat in
  let delta := stop - start in
  let y := map of_nat (seq 0 num) in
  let y :=
    if (0 <? div)%nat then
      let step := delta / of_nat div in
      if step =? 0 then map (fun v => v / of_nat div * delta + start) y
      else map (fun v => v * step + start) y
    else map (fun v => v * delta + start) y in
  if (1 <? num)%nat then removelast y ++ [stop] else y.

(** One query of [np.interp] against ascending sample points [xp]. *)
Fixpoint interp_scan (x : float) (xp fp : vec) : float :=
  match xp, fp with
  | x0 :: ((x1 :: _) as xp'), y0 :: ((y1 :: _) as fp') =>
      if x <? x1 then
        if x0 =? x then y0
        else
          let slope := (y1 - y0) / (x1 - x0) in
          let r := slope * (x - x0) + y0 in
          if PrimFloat.is_nan r then
            let r' := slope * (x - x1) + y1 in
            if PrimFloat.is_nan r' && (y0 =? y1) then y0 else r'
          else r
      else interp_scan x xp' fp'
  | _, y0 :: _ => y0
  | _, [] => nan
  end.

Definition np_interp (x xp fp : vec) : vec :=
  map (fun v =>
         if PrimFloat.is_nan v then v
         else if v <? hd nan xp then hd nan fp
         else interp_scan v xp fp) x.

(** [deleteHelper(np.squeeze(col), np.squeeze(col) == 0, axis = 0)]: on the
    zero-dimensional array of a single frame [np.delete] has no axis 0. *)
Definition nonzero_samples (col : vec) : result vec :=
  match np_squeeze col with
  | ZeroDim _ => Raise AxisError
  | OneDim sampledValues =>
      deleteHelper (@length float) sampledValues
        (Mask (map (fun v => v =? 0) sampledValues))
  end.

(** The body of the two loops of [interpTime], for the pair [(i, j)]: the
    values written to [result[:, i, j]]. *)
Definition interpTime_pair (oldValvePts : ndarray3) (newNumInterpSamples : nat)
  (i j : nat) : result vec :=
  sampledValues <-
    nonzero_samples
      (map (fun f => at3 oldValvePts f i j) (seq 0 (shape3_0 oldValvePts))) ;;
  if negb (length sampledValues =? 0)%nat then
    let samplePts := np_linspace 1 100 (length sampledValues) in
    let queryPts := np_linspace 1 100 newNumInterpSamples in
    Ok (np_interp queryPts samplePts sampledValues)
  else np_zeros newNumInterpSamples (dtype_int 1).

Definition interpTime (oldValvePts : ndarray3) (newNumInterpSamples : nat)
  : result ndarray3 :=
  cols <-
    for_each (seq 0 (shape3_1 oldValvePts))
      (fun acc i =>
         r <- for_each (seq 0 (shape3_2 oldValvePts))
                (fun acc' j =>
                   c <- interpTime_pair oldValvePts newNumInterpSamples i j ;;
                   Ok (acc' ++ [c]))
                [] ;;
         Ok (acc ++ [r]))
      [] ;;
  Ok (mk_ndarray3 newNumInterpSamples (shape3_1 oldValvePts)
        (shape3_2 oldValvePts)
        (fun f i j => nth f (nth j (nth i cols []) []) 0)).

(** ** LinearFitter3D: fitLine3D *)

Definition column (a : matrix) (k : nat) : vec := map (fun r => nth k r 0) a.

Definition add_rows (a b : vec) : vec := zipWith PrimFloat.add a b.

Definition dot (a b : vec) : float := sum (zipWith PrimFloat.mul a b).

Section LinearFitter3D.

(** [np.linalg.svd] is LAPACK code outside the repository: it is a parameter
    of the embedding, with the decomposition [(u, s, vh)] or the exception it
    raises as its result. *)
Variable svd : matrix -> result (matrix * vec * matrix).

(** [points - colMeans], the argument of the decomposition. *)
Definition centered (points : matrix) : matrix :=
  let colMeans := map (fun i => mean (column points i)) (seq 0 3) in
  map (fun r => sub r colMeans) points.

(** [fitLine3D(points)] for an [m x 3] array.  Indexing column 2 of a
    narrower array raises [IndexError]; a wider one does not broadcast
    against the three column means. *)
Definition fitLine3D (points : matrix) : result vec :=
  if existsb (fun r => (length r <? 3)%nat) points then Raise IndexError
  else if existsb (fun r => negb (length r =? 3)%nat) points
  then Raise ValueError
  else
    let colMeans := map (fun i => mean (column points i)) (seq 0 3) in
    let tmp := map (fun r => sub r colMeans) points in
    usv <- svd tmp ;;
    let vh := snd usv in
    match vh with
    | [] => Raise IndexError
    | coeff :: _ =>
        if negb (length coeff =? 3)%nat then Raise ValueError
        else
          let b := map (fun r => dot r coeff) tmp in
          (* row i of np.outer(coeff, b).transpose() *)
          let cT := map (fun bi => map (fun ck => ck * bi) coeff) b in
          let newPoints := map (fun r => add_rows r colMeans) cT in
          Ok (map (fun i => linalg_norm (sub (row newPoints i) (row points i)))
                  (seq 0 (shape0 points)))
    end.

End LinearFitter3D.

(** A decomposition of the zero matrices: [0 = I . diag(0) . I].  On the
    centred coordinates of a single point, which are zero, numpy's routine
    returns a decomposition of this form. *)
Definition identity3 : matrix := [[1; 0; 0]; [0; 1; 0]; [0; 0; 1]].

Definition svd_of_zero (a : matrix) : result (matrix * vec * matrix) :=
  if forallb (forallb (fun x => x =? 0)) a
  then Ok (map (fun i => map (fun j => if (i =? j)%nat then 1 else 0)
                             (seq 0 (length a)))
               (seq 0 (length a)),
           repeat 0 (Nat.min (length a) 3),
           identity3)
  else Raise LinAlgError.

(** ** PlanarNormalField: lineNormals2D *)

Definition vertex : Type := float * float.

(** [np.spacing(1)], the gap between 1 and the next float. *)
Definition np_spacing_1 : float := 0x1p-52.

(** [np.maximum]: the first argument when it is the larger or a NaN. *)
Definition np_maximum (a b : float) : float :=
  if (b <=? a) || PrimFloat.is_nan a then a else b.

(** [a[idx, :]] for a list of Python indices. *)
Definition take_rows {A : Type} (a : list A) (d : A) (idx : list Z)
  : result (list A) :=
  for_each idx
    (fun acc i => k <- normalize_index (length a) i ;; Ok (acc ++ [nth k a d]))
    [].

Fixpoint set_nth {A : Type} (k : nat) (v : A) (l : list A) : list A :=
  match l, k with
  | [], _ => []
  | _ :: l', O => v :: l'
  | x :: l', S k' => x :: set_nth k' v l'
  end.

(** [a[idx, :] = rows]: the assignments are made in order. *)
Definition put_rows {A : Type} (a : list A) (idx : list Z) (rows : list A)
  : result (list A) :=
  for_each (combine idx rows)
    (fun acc p => k <- normalize_index (length a) (fst p) ;;
                  Ok (set_nth k (snd p) acc))
    a.

Definition default_lineIndices (numVertices : nat) : list (Z * Z) :=
  combine (map Z.of_nat (seq 0 (numVertices - 1)))
          (map Z.of_nat (seq 1 (numVertices - 1))).

Definition lineNormals2D (vertices : list vertex)
  (lineIndices : option (list (Z * Z))) (perpendicular : bool)
  : result (list vertex) :=
  let numVertices := length vertices in
  if negb (numVertices =? 0)%nat && (numVertices <? 2)%nat
  then Raise ValueError
  else if (numVertices =? 0)%nat then Ok []
  else
    let lineIndices :=
      match lineIndices with
      | None | Some [] => default_lineIndices numVertices
      | Some l => l
      end in
    v0 <- take_rows vertices (0, 0) (map fst lineIndices) ;;
    v1 <- take_rows vertices (0, 0) (map snd lineIndices) ;;
    let DT := zipWith (fun a b => (fst a - fst b, snd a - snd b)) v0 v1 in
    let LL := map (fun d => PrimFloat.sqrt (fst d * fst d + snd d * snd d)) DT in
    let eps := np_spacing_1 in
    let LL2 := map (fun l => np_maximum (l * l) eps) LL in
    let DT := zipWith (fun d l2 => (fst d / l2, snd d / l2)) DT LL2 in
    let zeros := repeat (0, 0) numVertices in
    D1 <- put_rows zeros (map fst lineIndices) DT ;;
    D2 <- put_rows zeros (map snd lineIndices) DT ;;
    let D := zipWith (fun a b => (fst a + fst b, snd a + snd b)) D1 D2 in
    let LL := map (fun d => PrimFloat.sqrt (fst d * fst d + snd d * snd d)) D in
    let LL := map (fun l => np_maximum l eps) LL in
    if perpendicular
    then Ok (zipWith (fun d l => (- snd d / l, fst d / l)) D LL)
    else Ok (zipWith (fun d l => (fst d / l, snd d / l)) D LL).

(** ** Inputs used below *)

(** The scenario of the specification for [getRVinsertIndices]. *)
Definition gap_scenario : matrix := [[0; 0]; [1; 0]; [2; 0]; [3; 10]].

(** A closed contour of 12 points whose point 0 is 50 away from both of its
    neighbours, while all other neighbours are 6 apart. *)
Definition spike_contour : matrix :=
  [[0; 40]; [-30; 0]; [-24; 0]; [-18; 0]; [-12; 0]; [-6; 0]; [0; 0];
   [6; 0]; [12; 0]; [18; 0]; [24; 0]; [30; 0]].

(** The same shape of contour with one coordinate per point. *)
Definition spike_column : matrix :=
  [[100]; [0]; [1]; [2]; [3]; [4]; [5]; [6]; [7]; [8]; [9]; [10]].

(** Three frames of one landmark coordinate, all missing. *)
Definition zero_track : ndarray3 := mk_ndarray3 3 1 1 (fun _ _ _ => 0).

(** A matrix whose second row holds a NaN. *)
Definition nan_matrix : matrix := [[1; 2]; [nan; 0]].

(** Candidates that start with an all-zero row, and their targets. *)
Definition apex_candidates : matrix := [[0; 0]; [5; 5]].
Definition apex_targets : matrix := [[5; 5]].

(** Two query points and one reference point. *)
Definition query_points : matrix := [[0; 0]; [10; 10]].
Definition reference_points : matrix := [[1; 0]].

(** ** Vocabulary of the statements *)

(** No entry of [l] is a NaN. *)
Definition no_nan (l : vec) : Prop :=
  Forall (fun d => PrimFloat.is_nan d = false) l.

(** A point set: every point has at least two coordinates. *)
Definition point_set (a : matrix) : Prop :=
  Forall (fun r => (2 <= length r)%nat) a.

(** An [m x 3] array. *)
Definition three_columns (points : matrix) : Prop :=
  Forall (fun r => length r = 3%nat) points.

(** All samples of the pair [(i, j)] are zero. *)
Definition all_missing (oldValvePts : ndarray3) (i j : nat) : Prop :=
  forall f, (f < shape3_0 oldValvePts)%nat ->
            (at3 oldValvePts f i j =? 0) = true.

(** The threshold of [getRVinsertIndices]. *)
Definition upperThreshold_of (points : matrix) : float :=
  mean (pointDistances points) + 3 * std 1 (pointDistances points).

(** Every row of [m1] is matched by an equal row of [m2]. *)
Definition rows_matched_in (m1 m2 : matrix) : Prop :=
  forall r, In r m1 -> exists r', In r' m2 /\ row_equal r r' = true.

(** Invariants of the scan of [sharedRows].  Position by position, the two
    index lists pair equal rows. *)
Definition paired (arr1 arr2 : matrix) (st : list nat * list nat) : Prop :=
  Forall2 (fun i j => row_equal (row arr1 i) (row arr2 j) = true)
          (fst st) (snd st).

(** No equal rows [(i, j)] among [ks x js] are both left unmatched. *)
Definition maximal_on (arr1 arr2 : matrix) (ks js : list nat)
  (st : list nat * list nat) : Prop :=
  forall i j, In i ks -> In j js ->
    row_equal (row arr1 i) (row arr2 j) = true ->
    In i (fst st) \/ In j (snd st).

Definition grows (st st' : list nat * list nat) : Prop :=
  incl (fst st) (fst st') /\ incl (snd st) (snd st').

Definition bounded (n1 n2 : nat) (st : list nat * list nat) : Prop :=
  Forall (fun i => (i < n1)%nat) (fst st)
  /\ Forall (fun j => (j < n2)%nat) (snd st).

(** A Python index that is valid for an axis of length [n]. *)
Definition index_in_range (n : nat) (i : Z) : Prop :=
  (- Z.of_nat n <= i < Z.of_nat n)%Z.

(** Segments whose two end points are valid vertex indices; the default
    segments ([None]) always are. *)
Definition segments_in_range (n : nat) (lineIndices : option (list (Z * Z)))
  : Prop :=
  match lineIndices with
  | None => True
  | Some l => Forall (fun p => index_in_range n (fst p)
                               /\ index_in_range n (snd p)) l
  end.

From Stdlib Require Import Sorted.

(** [l1] is [l2] with some elements left out, in the same order. *)
Inductive subsequence {A : Type} : list A -> list A -> Prop :=
| subsequence_nil : subsequence [] []
| subsequence_skip (x : A) (l1 l2 : list A) :
    subsequence l1 l2 -> subsequence l1 (x :: l2)
| subsequence_keep (x : A) (l1 l2 : list A) :
    subsequence l1 l2 -> subsequence (x :: l1) (x :: l2).



(** Twenty points one apart on a line, listed from the middle: the only
    long step is the one from point 9 back to the start of the line. *)
Definition gap_contour : matrix :=
  [[10; 0]; [11; 0]; [12; 0]; [13; 0]; [14; 0]; [15; 0]; [16; 0]; [17; 0];
   [18; 0]; [19; 0]; [0; 0]; [1; 0]; [2; 0]; [3; 0]; [4; 0]; [5; 0]; [6; 0];
   [7; 0]; [8; 0]; [9; 0]].

(** Invariant of the scan of [sharedRows] at outer index [i]: the indices
    into [arr1] found so far are increasing and at most [i]; those into
    [arr2] do not repeat. *)
Definition scan_order (i : nat) (st : list nat * list nat) : Prop :=
  StronglySorted lt (fst st)
  /\ Forall (fun k => (k <= i)%nat) (fst st)
  /\ NoDup (snd st).

(** The pairwise distances [calcApex] minimises over: one row per non-zero
    row of [epiPts1], one column per non-zero row of [epiPts2]. *)
Definition apex_distances (epiPts1 epiPts2 : matrix) : matrix :=
  map (fun a => map (euclidean a) (removeZerorows epiPts2))
      (removeZerorows epiPts1).

(** The samples of the pair [(i, j)] over the frames, and those of them
    that are recorded (not zero). *)
Definition samples_of (oldValvePts : ndarray3) (i j : nat) : vec :=
  map (fun f => at3 oldValvePts f i j) (seq 0 (shape3_0 oldValvePts)).

Definition recorded (col : vec) : vec :=
  filter (fun v => negb (v =? 0)) col.

(** One coordinate over three frames, the middle one missing; and the same
    recorded samples over four frames, the first and last missing. *)
Definition sparse_track : ndarray3 :=
  mk_ndarray3 3 1 1 (fun f _ _ => nth f [2; 0; 4] 0).

Definition padded_track : ndarray3 :=
  mk_ndarray3 4 1 1 (fun f _ _ => nth f [0; 2; 4; 0] 0).

(** The Python index [i] names row [k] of an axis of length [n]. *)
Definition names_row (n k : nat) (i : Z) : Prop :=
  i = Z.of_nat k \/ i = (Z.of_nat k - Z.of_nat n)%Z.

(** Vertex [k] is an end point of none of the segments. *)
Definition isolated_vertex (n k : nat) (segments : list (Z * Z)) : Prop :=
  Forall (fun p => ~ names_row n k (fst p) /\ ~ names_row n k (snd p)) segments.

(** The index argument of [deleteHelper] is empty: an empty Python list,
    an empty index array or an empty mask. *)
Definition empty_indices (indices : index_arg) : Prop :=
  match indices with
  | IdxList l | IdxArray l => l = []
  | Mask m => m = []
  end.

(** ** TemporalResampler: manuallyCompileValvePoints *)

From Stdlib Require Import String.
Import List.

(** What [manuallyCompileValvePoints] can end in: its tuple, an exception of
    numpy, or the [KeyError] of a variable that a file does not hold. *)
Inductive outcome (A : Type) : Type :=
| Returned (a : A)
| Raised (e : exn)
| KeyError (key : string).

Arguments Returned {A} a.
Arguments Raised {A} e.
Arguments KeyError {A} key.

Definition bind_outcome {A B : Type} (r : outcome A) (k : A -> outcome B)
  : outcome B :=
  match r with
  | Returned a => k a
  | Raised e => Raised e
  | KeyError key => KeyError key
  end.

Notation "x <~ r ;; k" := (bind_outcome r (fun x => k))
  (at level 61, r at next level, right associativity).

Definition lift {A : Type} (r : result A) : outcome A :=
  match r with
  | Ok a => Returned a
  | Raise e => Raised e
  end.

(** A file as [scipy.io.loadmat] returns it: the landmark arrays by
    variable name.  Finding and reading the files is left to the caller of
    this embedding, which starts from the list [mat_files]. *)
Definition mat_file : Type := list (string * ndarray3).

Fixpoint lookup_var (name : string) (file : mat_file) : option ndarray3 :=
  match file with
  | [] => None
  | (key, value) :: file' =>
      if String.eqb key name then Some value else lookup_var name file'
  end.

(** A two-axis array with its shape, as the slice [a[f, :, :]] is. *)
Record table : Type := mk_table {
  nrows : nat;
  ncols : nat;
  cells : matrix
}.

Definition frame_slice (a : ndarray3) (f : nat) : table :=
  mk_table (shape3_1 a) (shape3_2 a)
    (map (fun i => map (fun j => at3 a f i j) (seq 0 (shape3_2 a)))
         (seq 0 (shape3_1 a))).

(** [a[frameNum, :, :]] for a Python index [frameNum]. *)
Definition frame_at (a : ndarray3) (frameNum : Z) : result table :=
  f <- normalize_index (shape3_0 a) frameNum ;; Ok (frame_slice a f).

Definition zeros_2x3 : matrix := [[0; 0; 0]; [0; 0; 0]].

(** [mv[i, :, :] = t]: the slice is broadcast to the shape [(2, 3)], an axis
    of length 1 being repeated; any other shape does not fit. *)
Definition assign_2x3 (t : table) : result matrix :=
  if (((nrows t =? 2) || (nrows t =? 1)) && ((ncols t =? 3) || (ncols t =? 1)))%nat
  then Ok (map (fun i =>
                  map (fun j =>
                         nth (if (ncols t =? 1)%nat then 0%nat else j)
                             (nth (if (nrows t =? 1)%nat then 0%nat else i)
                                  (cells t) [])
                             0)
                      (seq 0 3))
               (seq 0 2))
  else Raise ValueError.

(** [np.squeeze] of a two-axis array drops every axis of length 1. *)
Inductive landmark : Type :=
| Scalar (x : float)
| Vector (v : vec)
| Table (t : table).

Definition np_squeeze_table (t : table) : landmark :=
  if (nrows t =? 1)%nat then
    if (ncols t =? 1)%nat then Scalar (nth 0 (nth 0 (cells t) []) 0)
    else Vector (nth 0 (cells t) [])
  else if (ncols t =? 1)%nat then Vector (map (fun r => nth 0 r 0) (cells t))
  else Table t.

Definition var_mv : string := "point_coords_mv".

(** The body of the loop over the files: the [2 x 3] slice written to
    [mv[i, :, :]]. *)
Definition mv_of_file (numFrames : nat) (frameNum : Z) (file : mat_file)
  : outcome matrix :=
  match lookup_var var_mv file with
  | None => KeyError var_mv
  | Some point_coords_mv =>
      tmp <~ lift (interpTime point_coords_mv numFrames) ;;
      t <~ lift (frame_at tmp frameNum) ;;
      lift (assign_2x3 t)
  end.

Fixpoint each_file {A B : Type} (f : A -> outcome B) (files : list A)
  : outcome (list B) :=
  match files with
  | [] => Returned []
  | file :: files' =>
      b <~ f file ;; bs <~ each_file f files' ;; Returned (b :: bs)
  end.

(** [get_interp_mat_var(mat_var)]: the first file that holds the variable
    decides; [None] when no file holds it. *)
Fixpoint get_interp_mat_var (mat_files : list mat_file) (numFrames : nat)
  (frameNum : Z) (mat_var : string) : outcome (option landmark) :=
  match mat_files with
  | [] => Returned None
  | file :: mat_files' =>
      match lookup_var ("point_coords_" ++ mat_var) file with
      | Some point_coords_mat_var =>
          result <~ lift (interpTime point_coords_mat_var numFrames) ;;
          t <~ lift (frame_at result frameNum) ;;
          Returned (Some (np_squeeze_table t))
      | None => get_interp_mat_var mat_files' numFrames frameNum mat_var
      end
  end.

Definition or_zeros (v : option landmark) : landmark :=
  match v with
  | Some l => l
  | None => Table (mk_table 2 3 zeros_2x3)
  end.

Definition manuallyCompileValvePoints (mat_files : list mat_file)
  (numFrames : nat) (frameNum : Z)
  : outcome (list matrix * landmark * landmark * landmark) :=
  mv <~ each_file (mv_of_file numFrames frameNum) mat_files ;;
  _tv <~ get_interp_mat_var mat_files numFrames frameNum "tv" ;;
  _av <~ get_interp_mat_var mat_files numFrames frameNum "av" ;;
  _pv <~ get_interp_mat_var mat_files numFrames frameNum "pv" ;;
  Returned (mv, or_zeros _tv, or_zeros _av, or_zeros _pv).

(** A mitral track of two landmarks with three coordinates over two frames,
    and a tricuspid track of the same shape. *)
Definition mv_track : ndarray3 :=
  mk_ndarray3 2 2 3 (fun f i j => of_nat (1 + f + 10 * i + 100 * j)).

Definition tv_track : ndarray3 :=
  mk_ndarray3 2 2 3 (fun f i j => of_nat (7 + f + 10 * i + 100 * j)).

Definition file_2CH : mat_file := [(var_mv, mv_track)].

Definition file_4CH : mat_file :=
  [(var_mv, mv_track); ("point_coords_tv"%string, tv_track)].

(** The call does not return its tuple. *)
Definition fails {A : Type} (o : outcome A) : Prop :=
  match o with
  | Returned _ => False
  | _ => True
  end.

(** No file holds the variable of the landmark [mat_var]. *)
Definition held_by_none (mat_var : string) (mat_files : list mat_file) : Prop :=
  Forall (fun file => lookup_var ("point_coords_" ++ mat_var) file = None)
         mat_files.

(** The landmark [l] is frame [frameNum] of the interpolation of the track
    [a], squeezed. *)
Definition frame_of_track (a : ndarray3) (numFrames : nat) (frameNum : Z)
  (l : landmark) : Prop :=
  exists result t,
    interpTime a numFrames = Ok result
    /\ frame_at result frameNum = Ok t
    /\ l = np_squeeze_table t.

(** The [2 x 3] slice [m] is frame [frameNum] of the interpolation of the
    mitral track of [file]. *)
Definition mv_slice_of (numFrames : nat) (frameNum : Z) (file : mat_file)
  (m : matrix) : Prop :=
  exists a tmp t,
    lookup_var var_mv file = Some a
    /\ interpTime a numFrames = Ok tmp
    /\ frame_at tmp frameNum = Ok t
    /\ assign_2x3 t = Ok m.

(** ** PlanarPolygonAreaEstimator: calculate_area_of_polygon_3d *)

Definition vec3 : Type := float * float * float.

Definition list_of_vec3 (v : vec3) : vec :=
  let '(x, y, z) := v in [x; y; z].

(** [np.cross] of two vectors of three components. *)
Definition np_cross (a b : vec3) : vec3 :=
  let '(a0, a1, a2) := a in
  let '(b0, b1, b2) := b in
  (a1 * b2 - a2 * b1, a2 * b0 - a0 * b2, a0 * b1 - a1 * b0).

(** [v / np.linalg.norm(v)]. *)
Definition normalized (v : vec3) : vec3 :=
  let n := linalg_norm (list_of_vec3 v) in
  let '(x, y, z) := v in (x / n, y / n, z / n).

Section PlanarPolygonAreaEstimator.

(** [Polygon(polygon).area] is shapely code outside the repository: the
    area of the polygon through the given vertices, or the exception the
    constructor raises, is a parameter of the embedding. *)
Variable polygon_area : list (float * float) -> result float.

(** The two axes the points are projected on, and the projected vertices
    [np.dot(points - centroid, R.T)[:, :2]]. *)
Definition projection_axes (normal : vec3) : vec3 * vec3 :=
  let v1 := (1, 0, 0) in
  let v2 := np_cross normal v1 in
  let v2 := normalized v2 in
  let v1 := np_cross v2 normal in
  let v1 := normalized v1 in
  (v1, v2).

Definition projected (points : matrix) (normal : vec3) : list (float * float) :=
  let (v1, v2) := projection_axes normal in
  let centroid :=
    map (fun k => mean (column points k)) (seq 0 (shape1 points)) in
  map (fun r => let d := sub r centroid in
                (dot d (list_of_vec3 v1), dot d (list_of_vec3 v2)))
      points.

(** [calculate_area_of_polygon_3d(points, normal)] for an [m x 3] array of
    points; rows of another width do not multiply with the [3 x 3]
    rotation. *)
Definition calculate_area_of_polygon_3d (points : matrix) (normal : vec3)
  : result float :=
  if existsb (fun r => negb (length r =? 3)%nat) points then Raise ValueError
  else polygon_area (projected points normal).

End PlanarPolygonAreaEstimator.

(** The float is a zero of either sign, or a NaN. *)
Definition zero_or_nan (x : float) : Prop :=
  (exists s, Prim2SF x = S754_zero s) \/ x = nan.

(** * Properties *)

(** ** Order facts on binary64 comparisons

    The primitive comparisons are specified by [SFcompare] on the decoded
    floats: a lexicographic comparison of sign, exponent and mantissa. *)

Lemma SFcompare_swap (a b : spec_float) :
  SFcompare b a = option_map CompOpp (SFcompare a b).
Proof.
  destruct a as [sa|sa| |sa ma ea], b as [sb|sb| |sb mb eb]; simpl;
    try destruct sa; try destruct sb; simpl; try reflexivity.
  all: rewrite (Z.compare_antisym eb ea);
    destruct (eb ?= ea)%Z; simpl; try reflexivity;
    pose proof (Pos.compare_cont_antisym mb ma Eq) as Hm; simpl in Hm;
    rewrite <- Hm; now destruct (Pos.compare_cont Eq mb ma).
Qed.

Lemma feqb_sym (x y : float) : (x =? y) = (y =? x).
Proof.
  rewrite !FloatAxioms.eqb_spec. unfold SFeqb.
  rewrite (SFcompare_swap (Prim2SF y) (Prim2SF x)).
  now destruct (SFcompare (Prim2SF y) (Prim2SF x)) as [[]|].
Qed.

Lemma not_nan_compare (x y : float) :
  PrimFloat.is_nan x = false -> PrimFloat.is_nan y = false ->
  exists c, SFcompare (Prim2SF x) (Prim2SF y) = Some c.
Proof.
  unfold PrimFloat.is_nan. rewrite !FloatAxioms.eqb_spec. unfold SFeqb.
  destruct (Prim2SF x) as [sa|sa| |sa ma ea], (Prim2SF y) as [sb|sb| |sb mb eb];
    simpl; intros Hx Hy; try discriminate; eauto.
Qed.

(** [not (mp <= x)] on numbers means [x < mp]. *)
Lemma not_leb_ltb (mp x : float) :
  PrimFloat.is_nan mp = false -> PrimFloat.is_nan x = false ->
  (mp <=? x) = false -> (x <? mp) = true.
Proof.
  intros Hm Hx. destruct (not_nan_compare _ _ Hm Hx) as [c Hc].
  rewrite FloatAxioms.leb_spec, FloatAxioms.ltb_spec. unfold SFleb, SFltb.
  rewrite (SFcompare_swap (Prim2SF mp) (Prim2SF x)), Hc.
  now destruct c.
Qed.

Lemma leb_not_ltb (mp x : float) : (mp <=? x) = true -> (x <? mp) = false.
Proof.
  rewrite FloatAxioms.leb_spec, FloatAxioms.ltb_spec. unfold SFleb, SFltb.
  rewrite (SFcompare_swap (Prim2SF mp) (Prim2SF x)).
  now destruct (SFcompare (Prim2SF mp) (Prim2SF x)) as [[]|].
Qed.

Lemma Zcompare_Lt_trans a b c : (a ?= b)%Z = Lt -> (b ?= c)%Z = Lt -> (a ?= c)%Z = Lt.
Proof. rewrite !Z.compare_lt_iff. lia. Qed.
Lemma Zcompare_Gt_trans a b c : (a ?= b)%Z = Gt -> (b ?= c)%Z = Gt -> (a ?= c)%Z = Gt.
Proof. rewrite !Z.compare_gt_iff. lia. Qed.
Lemma Pcompare_Lt_trans a b c :
  Pos.compare_cont Eq a b = Lt -> Pos.compare_cont Eq b c = Lt -> Pos.compare_cont Eq a c = Lt.
Proof. change (Pos.compare_cont Eq) with Pos.compare. rewrite !Pos.compare_lt_iff. lia. Qed.
Lemma Pcompare_Gt_trans a b c :
  Pos.compare_cont Eq a b = Gt -> Pos.compare_cont Eq b c = Gt -> Pos.compare_cont Eq a c = Gt.
Proof. change (Pos.compare_cont Eq) with Pos.compare. rewrite !Pos.compare_gt_iff. lia. Qed.

Lemma SFcompare_Lt_trans (a b c : spec_float) :
  SFcompare a b = Some Lt -> SFcompare b c = Some Lt ->
  SFcompare a c = Some Lt.
Proof.
  destruct a as [sa|sa| |sa ma ea], b as [sb|sb| |sb mb eb],
    c as [sc|sc| |sc mc ec]; simpl;
    try destruct sa; try destruct sb; try destruct sc; simpl;
    try discriminate; try reflexivity.
  - destruct (ea ?= eb)%Z eqn:E1; destruct (eb ?= ec)%Z eqn:E2;
      try discriminate; intros H1 H2;
      try (apply Z.compare_eq_iff in E1; subst);
      try (apply Z.compare_eq_iff in E2; subst);
      try rewrite Z.compare_refl; try rewrite E1; try rewrite E2;
      try rewrite (Zcompare_Gt_trans _ _ _ E1 E2); try reflexivity.
    injection H1 as H1; injection H2 as H2. f_equal.
    destruct (Pos.compare_cont Eq ma mb) eqn:A; try discriminate.
    destruct (Pos.compare_cont Eq mb mc) eqn:B; try discriminate.
    now rewrite (Pcompare_Gt_trans _ _ _ A B).
  - destruct (ea ?= eb)%Z eqn:E1; destruct (eb ?= ec)%Z eqn:E2;
      try discriminate; intros H1 H2;
      try (apply Z.compare_eq_iff in E1; subst);
      try (apply Z.compare_eq_iff in E2; subst);
      try rewrite Z.compare_refl; try rewrite E1; try rewrite E2;
      try rewrite (Zcompare_Lt_trans _ _ _ E1 E2); try reflexivity.
    injection H1 as H1; injection H2 as H2. f_equal.
    now rewrite (Pcompare_Lt_trans _ _ _ H1 H2).
Qed.

Lemma ltb_trans (a b c : float) :
  (a <? b) = true -> (b <? c) = true -> (a <? c) = true.
Proof.
  rewrite !FloatAxioms.ltb_spec. unfold SFltb.
  destruct (SFcompare (Prim2SF a) (Prim2SF b)) as [[]|] eqn:E1; try discriminate.
  destruct (SFcompare (Prim2SF b) (Prim2SF c)) as [[]|] eqn:E2; try discriminate.
  now rewrite (SFcompare_Lt_trans _ _ _ E1 E2).
Qed.

Lemma ltb_asym (a b : float) : (a <? b) = true -> (b <? a) = false.
Proof.
  rewrite !FloatAxioms.ltb_spec. unfold SFltb.
  rewrite (SFcompare_swap (Prim2SF a) (Prim2SF b)).
  now destruct (SFcompare (Prim2SF a) (Prim2SF b)) as [[]|].
Qed.

Lemma ltb_irrefl (a : float) : (a <? a) = false.
Proof.
  destruct (a <? a) eqn:E; [|reflexivity].
  now rewrite <- (ltb_asym _ _ E).
Qed.

Lemma SFcompare_Eq_subst (a b c : spec_float) :
  SFcompare a b = Some Eq -> SFcompare a c = SFcompare b c.
Proof.
  destruct a as [sa|sa| |sa ma ea], b as [sb|sb| |sb mb eb]; simpl;
    try destruct sa; try destruct sb; simpl; try discriminate;
    try (intros _; destruct c as [sc|[]| |[] mc ec]; reflexivity).
  - destruct (ea ?= eb)%Z eqn:E; try discriminate.
    apply Z.compare_eq_iff in E. subst eb. intros [= H].
    destruct (Pos.compare_cont Eq ma mb) eqn:E'; try discriminate.
    apply Pos.compare_eq in E'. now subst mb.
  - destruct (ea ?= eb)%Z eqn:E; try discriminate.
    apply Z.compare_eq_iff in E. subst eb. intros [= H].
    apply Pos.compare_eq in H. now subst mb.
Qed.

(** [<] on floats is a strict weak order: a number that separates [a < c]
    is above [a] or below [c]. *)
Lemma ltb_cotrans (a b c : float) :
  PrimFloat.is_nan b = false -> (a <? c) = true ->
  (a <? b) = true \/ (b <? c) = true.
Proof.
  intros Hb. rewrite !FloatAxioms.ltb_spec. unfold SFltb.
  destruct (SFcompare (Prim2SF a) (Prim2SF c)) as [[]|] eqn:Eac; try discriminate.
  intros _.
  assert (Ha : PrimFloat.is_nan a = false).
  { unfold PrimFloat.is_nan. rewrite FloatAxioms.eqb_spec. unfold SFeqb.
    destruct (Prim2SF a) as [s|s| |s m e]; simpl in *; try discriminate;
      try reflexivity.
    - now destruct s.
    - destruct s; now rewrite Z.compare_refl, Pos.compare_cont_refl. }
  destruct (not_nan_compare a b Ha Hb) as [x Hx]. rewrite Hx.
  destruct x; [right|now left|right].
  - now rewrite <- (SFcompare_Eq_subst _ _ _ Hx), Eac.
  - rewrite (SFcompare_swap (Prim2SF b) (Prim2SF a)) in Hx.
    destruct (SFcompare (Prim2SF b) (Prim2SF a)) as [[]|] eqn:Eba; try discriminate.
    now rewrite (SFcompare_Lt_trans _ _ _ Eba Eac).
Qed.

(** ** np.argmin returns an index of a least element *)

Lemma argmin_from_lt (l pre : vec) (mp : float) (best : nat) :
  (best < length pre)%nat ->
  (argmin_from l (length pre) mp best < length (pre ++ l))%nat.
Proof.
  revert pre mp best. induction l as [|x l IH]; intros pre mp best Hb; simpl.
  - rewrite length_app. simpl. lia.
  - destruct (PrimFloat.is_nan mp); [rewrite length_app; simpl; lia|].
    replace (pre ++ x :: l) with ((pre ++ [x]) ++ l) by now rewrite <- app_assoc.
    replace (S (length pre)) with (length (pre ++ [x]))
      by (rewrite length_app; simpl; lia).
    destruct (negb (mp <=? x)); apply IH; rewrite length_app; simpl; lia.
Qed.

Lemma argmin_lt (l : vec) (k : nat) : argmin l = Ok k -> (k < length l)%nat.
Proof.
  destruct l as [|x l]; [discriminate|]. simpl. intros [= <-].
  apply (argmin_from_lt l [x] x 0). simpl. lia.
Qed.

Lemma argmin_nonempty (l : vec) : l <> [] -> exists k, argmin l = Ok k.
Proof. destruct l; [congruence|]. simpl. eauto. Qed.

(** The index found by the scan holds a value no other value is below. *)
Lemma argmin_from_least (l pre : vec) (mp : float) (best : nat) :
  no_nan (pre ++ l) ->
  (best < length pre)%nat -> nth best pre nan = mp ->
  Forall (fun e => (e <? mp) = false) pre ->
  Forall (fun e => (e <? nth (argmin_from l (length pre) mp best) (pre ++ l) nan) = false)
         (pre ++ l).
Proof.
  revert pre mp best. induction l as [|x l IH]; intros pre mp best Hn Hb Hm Hp;
    unfold no_nan in *; simpl.
  - rewrite app_nil_r, Hm. exact Hp.
  - assert (Hmp : PrimFloat.is_nan mp = false).
    { rewrite Forall_forall in Hn. apply Hn. apply in_or_app. left.
      rewrite <- Hm. now apply nth_In. }
    assert (Hx : PrimFloat.is_nan x = false).
    { rewrite Forall_forall in Hn. apply Hn. apply in_or_app. right. now left. }
    rewrite Hmp.
    replace (pre ++ x :: l) with ((pre ++ [x]) ++ l) in * by now rewrite <- app_assoc.
    replace (S (length pre)) with (length (pre ++ [x]))
      by (rewrite length_app; simpl; lia).
    destruct (mp <=? x) eqn:E; simpl.
    + apply IH; trivial.
      * rewrite length_app; simpl; lia.
      * rewrite app_nth1; trivial.
      * apply Forall_app. split; [exact Hp|].
        constructor; [|constructor]. now apply leb_not_ltb.
    + pose proof (not_leb_ltb _ _ Hmp Hx E) as Hlt.
      apply IH; trivial.
      * rewrite length_app; simpl; lia.
      * rewrite app_nth2, Nat.sub_diag; trivial. lia.
      * apply Forall_app. split.
        -- rewrite Forall_forall in *. intros e He.
           destruct (e <? x) eqn:Ee; [|reflexivity].
           rewrite <- (Hp e He). symmetry. now apply ltb_trans with x.
        -- constructor; [|constructor]. apply ltb_irrefl.
Qed.

Lemma argmin_least (l : vec) (k : nat) :
  no_nan l -> argmin l = Ok k ->
  Forall (fun e => (e <? nth k l nan) = false) l.
Proof.
  destruct l as [|x l]; [discriminate|]. unfold no_nan. simpl. intros Hn [= <-].
  apply (argmin_from_least l [x] x 0 Hn); simpl; trivial; try lia.
  constructor; [|constructor]. apply ltb_irrefl.
Qed.

(** ** removeFarPoints *)

Lemma nonzero_from_bounds (mask : list bool) (i : Z) :
  Forall (fun z => (i <= z < i + Z.of_nat (length mask))%Z) (nonzero_from i mask).
Proof.
  revert i. induction mask as [|b mask IH]; intros i; simpl; [constructor|].
  assert (H : Forall (fun z => (i <= z < i + Z.pos (Pos.of_succ_nat (length mask)))%Z)
                     (nonzero_from (i + 1) mask)).
  { eapply Forall_impl; [|apply IH]. simpl. intros z Hz. lia. }
  destruct b; [constructor; [lia|]|]; exact H.
Qed.

Lemma pointDistances_length (points : matrix) :
  length (pointDistances points) = length points.
Proof. unfold pointDistances, shape0. now rewrite length_map, length_seq. Qed.

Lemma far_indices_bounds (oldPoints : matrix) :
  Forall (fun z => (0 <= z < Z.of_nat (length oldPoints))%Z)
         (far_indices_of oldPoints).
Proof.
  unfold far_indices_of, nonzero.
  eapply Forall_impl; [|apply nonzero_from_bounds].
  simpl. intros z. rewrite length_map, pointDistances_length. lia.
Qed.

Lemma far_at_bounds (oldPoints : matrix) (i : nat) :
  oldPoints <> [] ->
  (0 <= far_at (far_indices_of oldPoints) i < Z.of_nat (length oldPoints))%Z.
Proof.
  intros Hne. unfold far_at.
  destruct (Nat.lt_ge_cases i (length (far_indices_of oldPoints))) as [Hi|Hi].
  - pose proof (far_indices_bounds oldPoints) as H. rewrite Forall_forall in H.
    apply H. now apply nth_In.
  - rewrite nth_overflow by exact Hi. destruct oldPoints; [congruence|]. simpl. lia.
Qed.

Lemma far_last_bounds (oldPoints : matrix) :
  oldPoints <> [] ->
  (0 <= last (far_indices_of oldPoints) 0 < Z.of_nat (length oldPoints))%Z.
Proof.
  intros Hne.
  destruct (far_indices_of oldPoints) as [|z l] eqn:E.
  - destruct oldPoints; [congruence|]. simpl. lia.
  - pose proof (far_indices_bounds oldPoints) as H. rewrite Forall_forall in H.
    apply H. rewrite E.
    assert (Hl : z :: l <> []) by discriminate.
    destruct (exists_last Hl) as [l' [a Ha]]. rewrite Ha, last_last.
    apply in_or_app. right. now left.
Qed.

(** A point set has at least twice as many entries as rows. *)
Lemma point_set_size (a : matrix) :
  point_set a -> (2 * length a <= size a)%nat.
Proof.
  unfold point_set, size. induction 1 as [|r a Hr _ IH]; simpl; [lia|].
  rewrite length_app. lia.
Qed.

(** The test [far_indices[-1] == np.size(oldPoints) - 1] compares a row
    index with the number of entries: on a point set it is never true. *)
Lemma wrap_test_false (oldPoints : matrix) :
  point_set oldPoints -> oldPoints <> [] ->
  (last (far_indices_of oldPoints) 0 =? Z.of_nat (size oldPoints) - 1)%Z = false.
Proof.
  intros Hp Hne. apply Z.eqb_neq.
  pose proof (far_last_bounds oldPoints Hne).
  pose proof (point_set_size oldPoints Hp).
  destruct oldPoints; [congruence|]. simpl length in *. lia.
Qed.

Lemma indicesToRemove_bounds (oldPoints : matrix) :
  point_set oldPoints -> oldPoints <> [] ->
  Forall (fun z => (1 <= z < Z.of_nat (length oldPoints))%Z)
         (indicesToRemove_of oldPoints (far_indices_of oldPoints)).
Proof.
  intros Hp Hne. unfold indicesToRemove_of.
  set (far := far_indices_of oldPoints).
  assert (G : forall (ks : list nat) (acc : list Z),
             Forall (fun z => (1 <= z < Z.of_nat (length oldPoints))%Z) acc ->
             Forall (fun z => (1 <= z < Z.of_nat (length oldPoints))%Z)
                    (fold_left (removeFarPoints_step oldPoints far) ks acc)).
  { induction ks as [|i ks IH]; intros acc Hacc; simpl; [exact Hacc|].
    apply IH. unfold removeFarPoints_step. subst far.
    rewrite (wrap_test_false oldPoints Hp Hne), andb_false_r.
    destruct (_ =? 1)%Z eqn:E; [|exact Hacc].
    apply Forall_app. split; [exact Hacc|]. constructor; [|constructor].
    apply Z.eqb_eq in E.
    pose proof (far_at_bounds oldPoints i Hne).
    pose proof (far_at_bounds oldPoints (i + 1) Hne). lia. }
  apply G. constructor.
Qed.

Lemma normalize_indices_ok (n : nat) (l : list Z) (acc : list nat) :
  Forall (fun z => (1 <= z < Z.of_nat n)%Z) l ->
  Forall (fun k => (1 <= k)%nat) acc ->
  exists drop,
    for_each l (fun acc i => k <- normalize_index n i ;; Ok (k :: acc)) acc
    = Ok drop /\ Forall (fun k => (1 <= k)%nat) drop.
Proof.
  revert acc. induction l as [|z l IH]; intros acc Hl Hacc; simpl.
  - eauto.
  - inversion Hl as [|? ? Hz Hl']; subst.
    unfold normalize_index at 1.
    replace ((0 <=? z)%Z && (z <? Z.of_nat n)%Z) with true
      by (symmetry; apply andb_true_iff; split; [apply Z.leb_le|apply Z.ltb_lt]; lia).
    simpl. apply IH; [exact Hl'|]. constructor; [lia|exact Hacc].
Qed.

Lemma keep_unlisted_head {A : Type} (a : A) (arr : list A) (drop : list nat) :
  Forall (fun k => (1 <= k)%nat) drop ->
  hd_error (keep_unlisted 0 (a :: arr) drop) = Some a.
Proof.
  intros Hd.
  assert (H : existsb (Nat.eqb 0) drop = false).
  { induction Hd as [|k drop Hk _ IH]; cbn [existsb]; [reflexivity|].
    rewrite IH. destruct k; [lia|reflexivity]. }
  cbn [keep_unlisted]. now rewrite H.
Qed.

(** C9.  On every point set (points of two or more coordinates)
    [removeFarPoints] returns, and row 0 of its result is row 0 of its
    input: the first point is never removed. *)
Theorem removeFarPoints_keeps_first_point (oldPoints : matrix) :
  point_set oldPoints ->
  exists newPoints,
    removeFarPoints oldPoints = Ok newPoints
    /\ hd_error newPoints = hd_error oldPoints.
Proof.
  intros Hp. unfold removeFarPoints.
  destruct (shape0 oldPoints <=? 2)%nat eqn:Hsmall; [eauto|].
  destruct (1 <? length (far_indices_of oldPoints))%nat; [|eauto].
  apply Nat.leb_gt in Hsmall. unfold shape0 in Hsmall.
  assert (Hne : oldPoints <> []) by (destruct oldPoints; simpl in *; [lia|discriminate]).
  unfold deleteHelper.
  pose proof (point_set_size oldPoints Hp) as Hs.
  replace (size oldPoints =? 0)%nat with false by (symmetry; apply Nat.eqb_neq; lia).
  simpl.
  destruct (normalize_indices_ok (length oldPoints) _ []
              (indicesToRemove_bounds oldPoints Hp Hne) (Forall_nil _))
    as [drop [Hdrop Hge]].
  rewrite Hdrop. simpl.
  eexists. split; [reflexivity|].
  destruct oldPoints as [|p rest]; [congruence|].
  now rewrite keep_unlisted_head.
Qed.

Lemma removeFarPoints_keeps_first_point_witness :
  exists newPoints,
    removeFarPoints spike_contour = Ok newPoints
    /\ hd_error newPoints = hd_error spike_contour.
Proof.
  apply (removeFarPoints_keeps_first_point spike_contour).
  repeat constructor.
Defined.

(** The hypothesis on the columns is needed.  An array of one column
    has as many entries as rows, the wrap test succeeds, and point 0 goes. *)
Example removeFarPoints_one_column_removes_first :
  far_indices_of spike_column = [0%Z; 11%Z]
  /\ removeFarPoints spike_column
     = Ok [[0]; [1]; [2]; [3]; [4]; [5]; [6]; [7]; [8]; [9]; [10]].
Proof. split; vm_compute; reflexivity. Qed.

(** C4.  On [spike_contour] the distances of index 0 and of the last index
    11 are the two flagged ones, a run that wraps from the last index back to
    index 0; [removeFarPoints] removes nothing, and point 0 stays. *)
Theorem removeFarPoints_keeps_wrapping_point :
  pointDistances spike_contour = [50; 6; 6; 6; 6; 6; 6; 6; 6; 6; 6; 50]
  /\ far_indices_of spike_contour = [0%Z; 11%Z]
  /\ removeFarPoints spike_contour = Ok spike_contour.
Proof. repeat split; vm_compute; reflexivity. Qed.

(** ** sharedRows *)

Lemma mem_nat_In (i : nat) (l : list nat) : mem_nat i l = true <-> In i l.
Proof.
  unfold mem_nat. rewrite existsb_exists. split.
  - intros [x [Hx E]]. apply Nat.eqb_eq in E. now subst.
  - intros H. exists i. split; [exact H|apply Nat.eqb_refl].
Qed.

Lemma row_equal_sym (r1 r2 : vec) : row_equal r1 r2 = row_equal r2 r1.
Proof.
  unfold row_equal. revert r2.
  induction r1 as [|x r1 IH]; intros [|y r2]; simpl; trivial.
  now rewrite IH, feqb_sym.
Qed.

Lemma row_equal_refl (r : vec) : no_nan r -> row_equal r r = true.
Proof.
  unfold row_equal, no_nan, PrimFloat.is_nan.
  induction 1 as [|x r Hx _ IH]; simpl; [reflexivity|].
  rewrite IH. apply negb_false_iff in Hx. now rewrite Hx.
Qed.

(** *** The scan of a matrix against itself *)

Lemma sharedRows_body_skip (arr1 arr2 : matrix) (i : nat) (js : list nat)
  (s1 s2 : list nat) :
  (forall j, In j js -> In i s1 \/ In j s2) ->
  fold_left (sharedRows_body arr1 arr2 i) js (s1, s2) = (s1, s2).
Proof.
  induction js as [|j js IH]; intros H; simpl; [reflexivity|].
  replace (mem_nat i s1 || mem_nat j s2) with true.
  - apply IH. intros j' Hj'. apply H. now right.
  - symmetry. apply orb_true_iff.
    destruct (H j (or_introl eq_refl)); [left|right]; now apply mem_nat_In.
Qed.

Lemma sharedRows_outer_self (a : matrix) (k : nat) :
  (k < length a)%nat -> no_nan (row a k) ->
  sharedRows_outer a a (seq 0 k, seq 0 k) k = (seq 0 (S k), seq 0 (S k)).
Proof.
  intros Hk Hn. unfold sharedRows_outer, shape0.
  rewrite (seq_S k 0). cbn [Nat.add].
  replace (length a) with (k + S (length a - S k))%nat by lia.
  rewrite seq_app, fold_left_app.
  change (seq (0 + k) (S (length a - S k)))
    with (k :: seq (S k) (length a - S k)).
  cbn [fold_left].
  rewrite sharedRows_body_skip by (intros j Hj; right; exact Hj).
  assert (Hk' : mem_nat k (seq 0 k) = false).
  { apply not_true_is_false. rewrite mem_nat_In, in_seq. lia. }
  unfold sharedRows_body at 2. rewrite Hk'. cbn [orb].
  rewrite (row_equal_refl _ Hn).
  apply sharedRows_body_skip. intros j _. left. apply in_or_app. right. now left.
Qed.

Lemma sharedIndices_self (a : matrix) :
  Forall no_nan a ->
  sharedIndices a a = (seq 0 (length a), seq 0 (length a)).
Proof.
  intros Hn. unfold sharedIndices, shape0.
  assert (G : forall k, (k <= length a)%nat ->
              fold_left (sharedRows_outer a a) (seq 0 k) ([], [])
              = (seq 0 k, seq 0 k)).
  { induction k as [|k IH]; intros Hk; [reflexivity|].
    rewrite (seq_S k 0) at 1. rewrite fold_left_app, IH by lia.
    cbn [Nat.add fold_left].
    apply sharedRows_outer_self; [lia|].
    rewrite Forall_forall in Hn. apply Hn. apply nth_In. lia. }
  now apply G.
Qed.

Lemma map_row_seq (a : matrix) : map (row a) (seq 0 (length a)) = a.
Proof.
  unfold row. apply nth_ext with (d := []) (d' := []).
  - now rewrite length_map, length_seq.
  - intros n Hn. rewrite length_map, length_seq in Hn.
    rewrite (nth_indep _ [] (nth 0 a [])) by (now rewrite length_map, length_seq).
    rewrite (map_nth (fun i => nth i a [])), seq_nth by exact Hn.
    reflexivity.
Qed.

(** *** The matching found by the scan *)

Lemma grows_refl st : grows st st.
Proof. split; apply incl_refl. Qed.

Lemma grows_trans st1 st2 st3 : grows st1 st2 -> grows st2 st3 -> grows st1 st3.
Proof. intros [A1 B1] [A2 B2]. split; eapply incl_tran; eauto. Qed.

Section Scan.

Variables arr1 arr2 : matrix.

Lemma maximal_on_grows ks js st st' :
  grows st st' -> maximal_on arr1 arr2 ks js st -> maximal_on arr1 arr2 ks js st'.
Proof.
  intros [A B] H i j Hi Hj E. destruct (H i j Hi Hj E); [left; auto|right; auto].
Qed.

Lemma sharedRows_body_spec i st j :
  paired arr1 arr2 st ->
  let st' := sharedRows_body arr1 arr2 i st j in
  paired arr1 arr2 st' /\ grows st st' /\ maximal_on arr1 arr2 [i] [j] st'.
Proof.
  destruct st as [s1 s2]. intros Hp. unfold sharedRows_body.
  destruct (mem_nat i s1 || mem_nat j s2) eqn:Hm.
  - split; [exact Hp|]. split; [apply grows_refl|].
    intros i' j' [<-|[]] [<-|[]] _. simpl.
    apply orb_true_iff in Hm. now rewrite <- !mem_nat_In.
  - destruct (row_equal (row arr1 i) (row arr2 j)) eqn:E.
    + split; [|split].
      * apply Forall2_app; [exact Hp|]. constructor; [exact E|constructor].
      * split; simpl; apply incl_appl, incl_refl.
      * intros i' j' [<-|[]] [<-|[]] _. left. simpl. apply in_or_app. right. now left.
    + split; [exact Hp|]. split; [apply grows_refl|].
      intros i' j' [<-|[]] [<-|[]] E'. congruence.
Qed.

Lemma sharedRows_inner_spec i js st :
  paired arr1 arr2 st ->
  let st' := fold_left (sharedRows_body arr1 arr2 i) js st in
  paired arr1 arr2 st' /\ grows st st' /\ maximal_on arr1 arr2 [i] js st'.
Proof.
  revert st. induction js as [|j js IH]; intros st Hp; simpl.
  - split; [exact Hp|]. split; [apply grows_refl|]. intros ? ? _ [].
  - destruct (sharedRows_body_spec i st j Hp) as [Hp1 [Hg1 Hm1]].
    destruct (IH _ Hp1) as [Hp2 [Hg2 Hm2]].
    split; [exact Hp2|]. split; [eapply grows_trans; eauto|].
    intros i' j' Hi' [<-|Hj'] E.
    + eapply maximal_on_grows; [exact Hg2|exact Hm1| | |]; simpl; auto.
    + apply Hm2; auto.
Qed.

Lemma sharedRows_scan_spec ks js st :
  paired arr1 arr2 st ->
  let st' := fold_left (fun st i => fold_left (sharedRows_body arr1 arr2 i) js st) ks st in
  paired arr1 arr2 st' /\ grows st st' /\ maximal_on arr1 arr2 ks js st'.
Proof.
  revert st. induction ks as [|i ks IH]; intros st Hp; simpl.
  - split; [exact Hp|]. split; [apply grows_refl|]. intros ? ? [].
  - destruct (sharedRows_inner_spec i js st Hp) as [Hp1 [Hg1 Hm1]].
    destruct (IH _ Hp1) as [Hp2 [Hg2 Hm2]].
    split; [exact Hp2|]. split; [eapply grows_trans; eauto|].
    intros i' j' [<-|Hi'] Hj' E.
    + eapply maximal_on_grows; [exact Hg2|exact Hm1| | |]; simpl; auto.
    + apply Hm2; auto.
Qed.

Lemma sharedIndices_spec :
  paired arr1 arr2 (sharedIndices arr1 arr2)
  /\ maximal_on arr1 arr2 (seq 0 (length arr1)) (seq 0 (length arr2))
       (sharedIndices arr1 arr2).
Proof.
  destruct (sharedRows_scan_spec (seq 0 (length arr1))
              (seq 0 (length arr2)) ([], [])) as [Hp [_ Hm]].
  - constructor.
  - split; [exact Hp|exact Hm].
Qed.

Lemma sharedRows_body_bounded n1 n2 i st j :
  (i < n1)%nat -> (j < n2)%nat -> bounded n1 n2 st ->
  bounded n1 n2 (sharedRows_body arr1 arr2 i st j).
Proof.
  destruct st as [s1 s2]. intros Hi Hj [H1 H2]. unfold sharedRows_body.
  destruct (_ || _); [now split|].
  destruct (row_equal _ _); [|now split].
  split; simpl in *; apply Forall_app; split; trivial; now repeat constructor.
Qed.

Lemma sharedIndices_bounded :
  bounded (length arr1) (length arr2) (sharedIndices arr1 arr2).
Proof.
  unfold sharedIndices, shape0.
  assert (Inner : forall i js st, (i < length arr1)%nat ->
            Forall (fun j => (j < length arr2)%nat) js ->
            bounded (length arr1) (length arr2) st ->
            bounded (length arr1) (length arr2)
              (fold_left (sharedRows_body arr1 arr2 i) js st)).
  { intros i js. induction js as [|j js IH]; intros st Hi Hjs Hb; simpl; trivial.
    inversion Hjs; subst. apply IH; trivial.
    now apply sharedRows_body_bounded. }
  assert (Outer : forall ks st, Forall (fun i => (i < length arr1)%nat) ks ->
            bounded (length arr1) (length arr2) st ->
            bounded (length arr1) (length arr2)
              (fold_left (sharedRows_outer arr1 arr2) ks st)).
  { induction ks as [|i ks IH]; intros st Hks Hb; simpl; trivial.
    inversion Hks; subst. apply IH; trivial.
    apply Inner; trivial. apply Forall_forall. intros j Hj.
    apply in_seq in Hj. unfold shape0 in Hj. lia. }
  apply Outer.
  - apply Forall_forall. intros i Hi. apply in_seq in Hi. lia.
  - split; constructor.
Qed.

End Scan.

Lemma Forall2_In_l {A B : Type} (P : A -> B -> Prop) l1 l2 x :
  Forall2 P l1 l2 -> In x l1 -> exists y, In y l2 /\ P x y.
Proof.
  induction 1 as [|a b l1 l2 Hab _ IH]; intros Hx; [destruct Hx|].
  destruct Hx as [<-|Hx].
  - exists b. split; [now left|exact Hab].
  - destruct (IH Hx) as [y [Hy Py]]. exists y. split; [now right|exact Py].
Qed.

Lemma Forall2_In_r {A B : Type} (P : A -> B -> Prop) l1 l2 y :
  Forall2 P l1 l2 -> In y l2 -> exists x, In x l1 /\ P x y.
Proof.
  induction 1 as [|a b l1 l2 Hab _ IH]; intros Hy; [destruct Hy|].
  destruct Hy as [<-|Hy].
  - exists a. split; [now left|exact Hab].
  - destruct (IH Hy) as [x [Hx Px]]. exists x. split; [now right|exact Px].
Qed.

Lemma sharedIndices_rows_matched (a b : matrix) :
  rows_matched_in (map (row a) (fst (sharedIndices a b)))
                  (map (row b) (fst (sharedIndices b a))).
Proof.
  intros r Hr. apply in_map_iff in Hr. destruct Hr as [i [<- Hi]].
  destruct (sharedIndices_spec a b) as [Hp _].
  destruct (sharedIndices_spec b a) as [Hq Hmax].
  destruct (sharedIndices_bounded a b) as [Hb1 Hb2].
  destruct (Forall2_In_l _ _ _ _ Hp Hi) as [j [Hj E]].
  rewrite Forall_forall in Hb1, Hb2.
  destruct (Hmax j i) as [Hin|Hin].
  - apply in_seq. specialize (Hb2 j Hj). lia.
  - apply in_seq. specialize (Hb1 i Hi). lia.
  - now rewrite row_equal_sym.
  - exists (row b j). split; [now apply in_map|exact E].
  - destruct (Forall2_In_r _ _ _ _ Hq Hin) as [j' [Hj' E']].
    exists (row b j'). split; [now apply in_map|]. now rewrite row_equal_sym.
Qed.

(** C8, as amended.  For a non-empty matrix without NaN entries,
    [sharedRows(A, A)] returns all rows of [A] with both index lists
    [0 .. m-1]; and for any [A], [B] the two calls [sharedRows(A, B)] and
    [sharedRows(B, A)] raise the same exception or return shared rows that
    match each other row for row (under [==]). *)
Theorem sharedRows_self_identity_and_symmetric_content :
  (forall a : matrix,
      size a <> 0%nat -> Forall no_nan a ->
      sharedRows (Some a) (Some a)
      = Ok (a, seq 0 (length a), seq 0 (length a)))
  /\ (forall a b : matrix,
         match sharedRows (Some a) (Some b), sharedRows (Some b) (Some a) with
         | Ok (rows_ab, _, _), Ok (rows_ba, _, _) =>
             rows_matched_in rows_ab rows_ba /\ rows_matched_in rows_ba rows_ab
         | Raise e, Raise e' => e = e'
         | _, _ => False
         end).
Proof.
  split.
  - intros a Hs Hn. unfold sharedRows.
    apply Nat.eqb_neq in Hs. rewrite Hs, Nat.eqb_refl. simpl.
    now rewrite (sharedIndices_self a Hn), map_row_seq.
  - intros a b. unfold sharedRows.
    rewrite (orb_comm (size b =? 0)%nat), (Nat.eqb_sym (shape1 b)).
    destruct ((size a =? 0)%nat || (size b =? 0)%nat).
    + split; intros r [].
    + destruct (negb (shape1 a =? shape1 b)%nat); [reflexivity|].
      pose proof (sharedIndices_rows_matched a b) as H1.
      pose proof (sharedIndices_rows_matched b a) as H2.
      destruct (sharedIndices a b) as [s1 s2], (sharedIndices b a) as [t1 t2].
      now split.
Qed.

Lemma sharedRows_self_identity_witness :
  sharedRows (Some [[1; 2]; [3; 4]]) (Some [[1; 2]; [3; 4]])
  = Ok ([[1; 2]; [3; 4]], [0; 1]%nat, [0; 1]%nat).
Proof.
  apply (proj1 sharedRows_self_identity_and_symmetric_content [[1; 2]; [3; 4]]).
  - simpl. discriminate.
  - repeat constructor.
Defined.

(** C8 as stated fails: a row that holds a NaN is not equal to itself,
    so it is not among the rows shared by a matrix and itself. *)
Lemma sharedRows_self_fails_on_nan :
  sharedRows (Some nan_matrix) (Some nan_matrix) = Ok ([[1; 2]], [0%nat], [0%nat])
  /\ size nan_matrix <> 0%nat
  /\ sharedRows (Some nan_matrix) (Some nan_matrix)
     <> Ok (nan_matrix, seq 0 (length nan_matrix), seq 0 (length nan_matrix)).
Proof.
  split; [vm_compute; reflexivity|]. split; [discriminate|].
  vm_compute. discriminate.
Qed.

(** C10.  If either matrix is empty, [sharedRows] returns three empty
    results whatever the column counts; it raises exactly when both matrices
    are non-empty and their column counts differ, and then [ValueError]. *)
Theorem sharedRows_empty_check_precedes_columns (a b : matrix) :
  ((size a = 0%nat \/ size b = 0%nat) ->
   sharedRows (Some a) (Some b) = Ok ([], [], []))
  /\ (forall e, sharedRows (Some a) (Some b) = Raise e <->
                e = ValueError /\ size a <> 0%nat /\ size b <> 0%nat
                /\ shape1 a <> shape1 b).
Proof.
  unfold sharedRows. split.
  - intros [H|H]; rewrite H; simpl; [reflexivity|]. now rewrite orb_true_r.
  - intros e.
    destruct (size a =? 0)%nat eqn:Ha; destruct (size b =? 0)%nat eqn:Hb;
      simpl;
      try apply Nat.eqb_eq in Ha; try apply Nat.eqb_eq in Hb;
      try (split; [discriminate|intros [_ [? [? _]]]; congruence]).
    apply Nat.eqb_neq in Ha, Hb.
    destruct (shape1 a =? shape1 b)%nat eqn:Hc; simpl.
    + apply Nat.eqb_eq in Hc. destruct (sharedIndices a b).
      split; [discriminate|intros [_ [_ [_ ?]]]; congruence].
    + apply Nat.eqb_neq in Hc. split.
      * intros [= <-]. auto.
      * intros [-> _]. reflexivity.
Qed.

Lemma sharedRows_empty_check_witness :
  sharedRows (Some []) (Some [[1; 2; 3]]) = Ok ([], [], []).
Proof.
  apply (proj1 (sharedRows_empty_check_precedes_columns [] [[1; 2; 3]])).
  left. reflexivity.
Defined.

(** ** interpTime on missing data *)

Lemma keep_unmasked_all_true {A : Type} (l : list A) (m : list bool) :
  Forall (fun b => b = true) m -> keep_unmasked l m = [].
Proof.
  revert m. induction l as [|a l IH]; intros [|b m] H; simpl; trivial.
  inversion H; subst. now apply IH.
Qed.

(** A column of zeros over [frames <> 1] frames loses all its samples. *)
Lemma nonzero_samples_all_zero (col : vec) :
  length col <> 1%nat -> Forall (fun v => (v =? 0) = true) col ->
  nonzero_samples col = Ok [].
Proof.
  intros Hlen Hz. unfold nonzero_samples, np_squeeze.
  destruct col as [|x [|y col]]; [reflexivity|simpl in Hlen; congruence|].
  unfold deleteHelper, emptyNdarrayCheck_indices, delete.
  rewrite length_map, Nat.eqb_refl. cbn [length Nat.eqb].
  rewrite keep_unmasked_all_true; [reflexivity|].
  apply Forall_forall. intros b Hb. apply in_map_iff in Hb.
  destruct Hb as [v [<- Hv]]. rewrite Forall_forall in Hz. now apply Hz.
Qed.

Lemma nonzero_samples_raises (col : vec) (e : exn) :
  length col <> 1%nat -> nonzero_samples col <> Raise e.
Proof.
  intros Hlen. unfold nonzero_samples, np_squeeze.
  destruct col as [|x [|y col]]; [discriminate|simpl in Hlen; congruence|].
  unfold deleteHelper, emptyNdarrayCheck_indices, delete.
  rewrite length_map, Nat.eqb_refl. cbn [length Nat.eqb]. discriminate.
Qed.

Lemma interpTime_pair_all_missing (oldValvePts : ndarray3) (n i j : nat) :
  shape3_0 oldValvePts <> 1%nat -> all_missing oldValvePts i j ->
  interpTime_pair oldValvePts n i j = Raise TypeError.
Proof.
  intros Hf Hz. unfold interpTime_pair.
  rewrite nonzero_samples_all_zero; [reflexivity| |].
  - now rewrite length_map, length_seq.
  - apply Forall_forall. intros v Hv. apply in_map_iff in Hv.
    destruct Hv as [f [<- Hin]]. apply Hz. apply in_seq in Hin. lia.
Qed.

Lemma interpTime_pair_raises (oldValvePts : ndarray3) (n i j : nat) (e : exn) :
  shape3_0 oldValvePts <> 1%nat ->
  interpTime_pair oldValvePts n i j = Raise e -> e = TypeError.
Proof.
  intros Hf. unfold interpTime_pair.
  destruct (nonzero_samples _) as [s|e'] eqn:E.
  - simpl. destruct (negb _); [discriminate|]. simpl. now intros [= <-].
  - exfalso. revert E. apply nonzero_samples_raises.
    now rewrite length_map, length_seq.
Qed.

(** A loop whose body can only raise [e0], and does raise at some element,
    raises [e0]. *)
Lemma for_each_raises {A S : Type} (e0 : exn) (body : S -> A -> result S)
  (xs : list A) (x : A) (acc : S) :
  (forall s y e, body s y = Raise e -> e = e0) ->
  In x xs -> (forall s, body s x = Raise e0) ->
  for_each xs body acc = Raise e0.
Proof.
  intros Honly Hin Hx. revert acc.
  induction xs as [|y xs IH]; intros acc; [destruct Hin|]. simpl.
  destruct (body acc y) as [s|e] eqn:E.
  - destruct Hin as [->|Hin]; [rewrite Hx in E; discriminate|].
    simpl. now apply IH.
  - simpl. f_equal. eapply Honly; eauto.
Qed.

Lemma for_each_only_raises {A S : Type} (e0 : exn) (body : S -> A -> result S)
  (xs : list A) (acc : S) (e : exn) :
  (forall s y e, body s y = Raise e -> e = e0) ->
  for_each xs body acc = Raise e -> e = e0.
Proof.
  intros Honly. revert acc. induction xs as [|y xs IH]; intros acc; simpl.
  - discriminate.
  - destruct (body acc y) as [s|e'] eqn:E; simpl.
    + apply IH.
    + intros [= <-]. eapply Honly; eauto.
Qed.

(** C1.  When the samples of some pair [(i, j)] are all zero, over a
    number of frames other than 1, [interpTime] does not return: the branch
    for missing data calls [np.zeros(newNumInterpSamples, 1)] and raises
    [TypeError]. *)
Theorem interpTime_all_missing_raises (oldValvePts : ndarray3)
  (newNumInterpSamples i j : nat) :
  shape3_0 oldValvePts <> 1%nat ->
  (i < shape3_1 oldValvePts)%nat -> (j < shape3_2 oldValvePts)%nat ->
  all_missing oldValvePts i j ->
  interpTime oldValvePts newNumInterpSamples = Raise TypeError.
Proof.
  intros Hf Hi Hj Hz. unfold interpTime.
  set (inner := fun (i : nat) (acc' : list vec) (j : nat) =>
                  c <- interpTime_pair oldValvePts newNumInterpSamples i j ;;
                  Ok (acc' ++ [c])).
  assert (Hinner : forall i s y e, inner i s y = Raise e -> e = TypeError).
  { intros i' s y e. unfold inner.
    destruct (interpTime_pair _ _ i' y) as [c|e'] eqn:E; simpl; [discriminate|].
    intros [= <-]. eapply interpTime_pair_raises; eauto. }
  rewrite (for_each_raises TypeError _ (seq 0 (shape3_1 oldValvePts)) i);
    [reflexivity| | |].
  - intros s y e.
    destruct (for_each _ _ _) as [r|e'] eqn:E; simpl; [discriminate|].
    intros [= <-]. eapply for_each_only_raises; [|exact E]. apply (Hinner y).
  - apply in_seq. lia.
  - intros s.
    rewrite (for_each_raises TypeError (inner i) (seq 0 (shape3_2 oldValvePts)) j);
      [reflexivity|apply Hinner|apply in_seq; lia|].
    intros s'. unfold inner. now rewrite interpTime_pair_all_missing.
Qed.

(** Three all-zero frames of one coordinate raise [TypeError]. *)
Lemma interpTime_zero_track_raises :
  interpTime zero_track 4 = Raise TypeError.
Proof.
  apply (interpTime_all_missing_raises zero_track 4 0 0).
  - simpl. discriminate.
  - simpl. lia.
  - simpl. lia.
  - intros f _. reflexivity.
Defined.

(** ** getRVinsertIndices on the scenario of the specification *)

(** C2, as amended.  On [(0,0), (1,0), (2,0), (3,10)] the result of
    [getRVinsertIndices] is the empty array: no cyclic distance exceeds
    mean + 3 * std (ddof = 1), and the largest distance is the wrap-around
    one, at index 3. *)
Theorem getRVinsertIndices_gap_scenario_empty :
  getRVinsertIndices gap_scenario = Ok []
  /\ forallb (fun d => negb (upperThreshold_of gap_scenario <? d))
             (pointDistances gap_scenario) = true
  /\ argmax (pointDistances gap_scenario) = Ok 3%nat.
Proof. repeat split; vm_compute; reflexivity. Qed.

(** C2 as stated fails: the result on the scenario is not [[2, 3]]. *)
Lemma getRVinsertIndices_gap_scenario_not_2_3 :
  getRVinsertIndices gap_scenario = Ok []
  /\ getRVinsertIndices gap_scenario <> Ok [2%Z; 3%Z].
Proof. split; vm_compute; [reflexivity|discriminate]. Qed.

(** ** calcApex indexes the unfiltered array *)

(** C3.  The first candidate is an all-zero row, which [removeZerorows]
    drops; the minimum of the distance matrix is at row 0 of the filtered
    candidates, [(5, 5)], but [calcApex] reads row 0 of the unfiltered
    array and returns the zero row. *)
Theorem calcApex_returns_removed_zero_row :
  removeZerorows apex_candidates = [[5; 5]]
  /\ cdist (removeZerorows apex_candidates) (removeZerorows apex_targets)
     = Ok [[0]]
  /\ calcApex apex_candidates apex_targets = Ok [0; 0].
Proof. repeat split; vm_compute; reflexivity. Qed.

(** ** fitLine3D has no guard on the number of points *)

Lemma three_columns_checks (points : matrix) :
  three_columns points ->
  existsb (fun r => (length r <? 3)%nat) points = false
  /\ existsb (fun r => negb (length r =? 3)%nat) points = false.
Proof.
  induction 1 as [|r points Hr _ [IH1 IH2]]; simpl; [now split|].
  rewrite IH1, IH2, Hr. now split.
Qed.

(** C5, as amended.  [fitLine3D] has no guard on the number of points.
    On an [m x 3] array it raises what [np.linalg.svd] raises on the centred
    points, and when the decomposition returns (with rows of three entries in
    [vh]) it returns a residual vector as long as the input, for every
    [m], 0 and 1 included. *)
Theorem fitLine3D_raises_only_with_svd
  (svd : matrix -> result (matrix * vec * matrix)) (points : matrix) :
  three_columns points ->
  match svd (centered points) with
  | Raise e => fitLine3D svd points = Raise e
  | Ok (_, _, vh) =>
      forall coeff rest, vh = coeff :: rest -> length coeff = 3%nat ->
        exists err, fitLine3D svd points = Ok err
                    /\ length err = length points
  end.
Proof.
  intros H3. destruct (three_columns_checks points H3) as [C1 C2].
  unfold fitLine3D. rewrite C1, C2. fold (centered points).
  destruct (svd (centered points)) as [[[u s] vh]|e]; simpl; [|reflexivity].
  intros coeff rest -> Hc. rewrite Hc. simpl.
  eexists. split; [reflexivity|].
  unfold shape0. now rewrite length_map, length_seq.
Qed.

Lemma fitLine3D_single_point_witness :
  exists err, fitLine3D svd_of_zero [[1; 2; 3]] = Ok err
              /\ length err = length [[1; 2; 3]].
Proof.
  refine (fitLine3D_raises_only_with_svd svd_of_zero [[1; 2; 3]] _
            [1; 0; 0] [[0; 1; 0]; [0; 0; 1]] _ _).
  - repeat constructor.
  - reflexivity.
  - reflexivity.
Defined.

(** C5 as stated fails: on a single point the centred coordinates are
    zero, the decomposition returns, and [fitLine3D] returns the residual
    [[0]] instead of raising. *)
Lemma fitLine3D_single_point_returns :
  (length [[1; 2; 3]] < 2)%nat
  /\ svd_of_zero (centered [[1; 2; 3]]) = Ok ([[1]], [0], identity3)
  /\ fitLine3D svd_of_zero [[1; 2; 3]] = Ok [0].
Proof. repeat split; vm_compute; reflexivity. Qed.

(** ** lineNormals2D raises ValueError exactly on a single vertex *)

Lemma normalize_index_raises (n : nat) (i : Z) (e : exn) :
  normalize_index n i = Raise e -> e = IndexError.
Proof.
  unfold normalize_index.
  destruct (_ && _); [discriminate|]. destruct (_ && _); [discriminate|].
  now intros [= <-].
Qed.

Lemma take_rows_raises {A : Type} (a : list A) (d : A) (idx : list Z) (e : exn) :
  take_rows a d idx = Raise e -> e = IndexError.
Proof.
  unfold take_rows. apply for_each_only_raises. intros s y e'.
  destruct (normalize_index (length a) y) eqn:E; simpl; [discriminate|].
  intros [= <-]. eapply normalize_index_raises; eauto.
Qed.

Lemma put_rows_raises {A : Type} (a : list A) (idx : list Z) (rows : list A)
  (e : exn) : put_rows a idx rows = Raise e -> e = IndexError.
Proof.
  unfold put_rows.
  generalize (length a). intros n. apply for_each_only_raises. intros s y e'.
  destruct (normalize_index n (fst y)) eqn:E; simpl; [discriminate|].
  intros [= <-]. eapply normalize_index_raises; eauto.
Qed.

(** The outermost call of a chain of binds cannot be the one that raises
    [ValueError] when [lem] shows that it raises something else. *)
Ltac bind_cannot_raise lem :=
  lazymatch goal with
  | |- bind ?r _ = Raise _ -> False =>
      let E := fresh "E" in
      destruct r eqn:E; cbn [bind];
      [|apply lem in E; subst; discriminate]
  end.

Lemma set_nth_length {A : Type} (k : nat) (v : A) (l : list A) :
  length (set_nth k v l) = length l.
Proof.
  revert k. induction l as [|x l IH]; intros [|k]; simpl; trivial.
  now rewrite IH.
Qed.

Lemma zipWith_length {A B C : Type} (f : A -> B -> C) (xs : list A) (ys : list B) :
  length (zipWith f xs ys) = Nat.min (length xs) (length ys).
Proof. unfold zipWith. now rewrite length_map, length_combine. Qed.

Lemma normalize_index_valid (n : nat) (i : Z) :
  index_in_range n i -> exists k, normalize_index n i = Ok k /\ (k < n)%nat.
Proof.
  unfold index_in_range, normalize_index. intros H.
  destruct ((0 <=? i)%Z && (i <? Z.of_nat n)%Z) eqn:E.
  - apply andb_true_iff in E. destruct E as [E1 E2].
    apply Z.leb_le in E1. apply Z.ltb_lt in E2.
    eexists. split; [reflexivity|]. lia.
  - replace ((- Z.of_nat n <=? i)%Z && (i <? 0)%Z) with true.
    + eexists. split; [reflexivity|]. lia.
    + symmetry. apply andb_true_iff. split; [apply Z.leb_le; lia|].
      apply Z.ltb_lt. apply andb_false_iff in E.
      destruct E as [E|E]; [apply Z.leb_gt in E|apply Z.ltb_ge in E]; lia.
Qed.

Lemma take_rows_valid {A : Type} (a : list A) (d : A) (idx : list Z) :
  Forall (index_in_range (length a)) idx ->
  exists rows, take_rows a d idx = Ok rows /\ length rows = length idx.
Proof.
  unfold take_rows. intros H.
  assert (G : forall acc : list A,
             exists rows,
               for_each idx
                 (fun acc i => k <- normalize_index (length a) i ;;
                               Ok (acc ++ [nth k a d])) acc
               = Ok rows /\ length rows = (length acc + length idx)%nat).
  { induction H as [|i idx Hi _ IH]; intros acc; simpl.
    - exists acc. split; [reflexivity|lia].
    - destruct (normalize_index_valid _ _ Hi) as [k [-> _]]. cbn [bind].
      destruct (IH (acc ++ [nth k a d])) as [rows [-> L]].
      exists rows. split; [reflexivity|]. rewrite L, length_app. simpl. lia. }
  destruct (G []) as [rows [E L]]. exists rows. now split.
Qed.

Lemma put_rows_valid {A : Type} (a : list A) (idx : list Z) (rows : list A) :
  Forall (index_in_range (length a)) idx ->
  exists a', put_rows a idx rows = Ok a' /\ length a' = length a.
Proof.
  unfold put_rows. intros H.
  assert (G : forall (rows' acc : list A), length acc = length a ->
             exists a',
               for_each (combine idx rows')
                 (fun acc p => k <- normalize_index (length a) (fst p) ;;
                               Ok (set_nth k (snd p) acc)) acc
               = Ok a' /\ length a' = length a).
  { induction H as [|i idx Hi _ IH]; intros rows' acc Hacc; simpl; [eauto|].
    destruct rows' as [|r rows']; simpl; [eauto|].
    destruct (normalize_index_valid _ _ Hi) as [k [-> _]]. cbn [bind].
    apply IH. now rewrite set_nth_length. }
  now apply G.
Qed.

Lemma default_lineIndices_in_range (n : nat) :
  Forall (fun p => index_in_range n (fst p) /\ index_in_range n (snd p))
         (default_lineIndices n).
Proof.
  unfold default_lineIndices. apply Forall_forall. intros [i j] Hin.
  pose proof (in_combine_l _ _ _ _ Hin) as Hi.
  pose proof (in_combine_r _ _ _ _ Hin) as Hj.
  apply in_map_iff in Hi, Hj.
  destruct Hi as [a [<- Ha]], Hj as [b [<- Hb]].
  apply in_seq in Ha, Hb. unfold index_in_range. simpl. lia.
Qed.

Lemma Forall_map_pred {A B : Type} (f : A -> B) (P : B -> Prop) (l : list A) :
  Forall (fun x => P (f x)) l -> Forall P (map f l).
Proof. induction 1; simpl; constructor; auto. Qed.

(** C7.  [lineNormals2D] raises [ValueError] if and only if it is given
    exactly one vertex; with no vertex it returns the empty array; with two
    or more vertices (and the default segments, or segments between valid
    vertex indices) it returns normally, with one normal per vertex. *)
Theorem lineNormals2D_ValueError_iff_single_vertex (vertices : list vertex)
  (lineIndices : option (list (Z * Z))) (perpendicular : bool) :
  (lineNormals2D vertices lineIndices perpendicular = Raise ValueError
   <-> length vertices = 1%nat)
  /\ (length vertices = 0%nat ->
      lineNormals2D vertices lineIndices perpendicular = Ok [])
  /\ ((2 <= length vertices)%nat ->
      segments_in_range (length vertices) lineIndices ->
      exists normals,
        lineNormals2D vertices lineIndices perpendicular = Ok normals
        /\ length normals = length vertices).
Proof.
  split; [|split].
  - unfold lineNormals2D.
    destruct (length vertices) as [|[|n]] eqn:Hlen; simpl.
    + split; [discriminate|lia].
    + split; trivial.
    + split; [|lia]. intros H. exfalso. revert H.
      set (li := match lineIndices with
                 | Some ((_ :: _) as l) => l
                 | _ => default_lineIndices (S (S n))
                 end).
      bind_cannot_raise @take_rows_raises.
      bind_cannot_raise @take_rows_raises.
      bind_cannot_raise @put_rows_raises.
      bind_cannot_raise @put_rows_raises.
      destruct perpendicular; discriminate.
  - intros H0. unfold lineNormals2D. now rewrite H0.
  - intros H2 Hseg. unfold lineNormals2D.
    replace (negb (length vertices =? 0)%nat && (length vertices <? 2)%nat)
      with false
      by (symmetry; apply andb_false_iff; right; apply Nat.ltb_ge; lia).
    replace (length vertices =? 0)%nat with false
      by (symmetry; apply Nat.eqb_neq; lia).
    set (li := match lineIndices with
               | Some ((_ :: _) as l) => l
               | _ => default_lineIndices (length vertices)
               end).
    assert (Hli : Forall (fun p => index_in_range (length vertices) (fst p)
                                   /\ index_in_range (length vertices) (snd p)) li).
    { subst li. destruct lineIndices as [[|p l]|];
        try apply default_lineIndices_in_range. exact Hseg. }
    assert (F0 : Forall (index_in_range (length vertices)) (map fst li)).
    { apply Forall_map_pred. eapply Forall_impl; [|exact Hli]. now intros p [? _]. }
    assert (F1 : Forall (index_in_range (length vertices)) (map snd li)).
    { apply Forall_map_pred. eapply Forall_impl; [|exact Hli]. now intros p [_ ?]. }
    destruct (take_rows_valid vertices (0, 0) _ F0) as [v0 [-> _]].
    destruct (take_rows_valid vertices (0, 0) _ F1) as [v1 [-> _]].
    cbn [bind].
    set (DT := zipWith _ (zipWith _ _ _) _).
    assert (Z0 : Forall (index_in_range (length (repeat (0%float, 0%float) (length vertices))))
                        (map fst li)) by now rewrite repeat_length.
    assert (Z1 : Forall (index_in_range (length (repeat (0%float, 0%float) (length vertices))))
                        (map snd li)) by now rewrite repeat_length.
    destruct (put_rows_valid _ _ DT Z0) as [D1 [-> L1]].
    destruct (put_rows_valid _ _ DT Z1) as [D2 [-> L2]].
    cbn [bind]. rewrite repeat_length in L1, L2.
    destruct perpendicular; eexists; (split; [reflexivity|]);
      rewrite zipWith_length, !length_map, zipWith_length, L1, L2; lia.
Qed.

Lemma lineNormals2D_two_vertices_witness :
  exists normals,
    lineNormals2D [(0, 0); (1, 0)] None false = Ok normals
    /\ length normals = length [(0, 0); (1, 0)].
Proof.
  apply (proj2 (proj2 (lineNormals2D_ValueError_iff_single_vertex
                         [(0, 0); (1, 0)] None false))).
  - simpl. lia.
  - exact I.
Defined.

(** ** getLAinsert returns one of the query points *)

Lemma KDTree_query_ok (data x : matrix) :
  data <> [] -> x <> [] ->
  all_finite data = true -> all_finite x = true -> shape1 x = shape1 data ->
  KDTree_query data x = Ok (map (nearest_distance data) x).
Proof.
  intros Hd Hx Fd Fx Hs. unfold KDTree_query.
  rewrite Fd, Fx, Hs, Nat.eqb_refl. simpl.
  destruct data; [congruence|]. destruct x; [congruence|]. reflexivity.
Qed.

(** The fold of [nearest_distance] ends on a value none of the distances is
    below. *)
Lemma nearest_distance_fold_least (q : vec) (data : matrix) (best : float) :
  PrimFloat.is_nan best = false ->
  no_nan (map (euclidean q) data) ->
  let r := fold_left (fun best p => let d := euclidean q p in
                                    if d <? best then d else best) data best in
  PrimFloat.is_nan r = false /\ (best <? r) = false
  /\ Forall (fun p => (euclidean q p <? r) = false) data.
Proof.
  revert best. induction data as [|p data IH]; intros best Hb Hn; simpl.
  - split; [exact Hb|]. split; [apply ltb_irrefl|constructor].
  - unfold no_nan in Hn. simpl in Hn. inversion Hn as [|? ? Hp Hn']; subst.
    destruct (euclidean q p <? best) eqn:E.
    + destruct (IH (euclidean q p) Hp Hn') as [R1 [R2 R3]].
      split; [exact R1|]. split.
      * match goal with |- (best <? ?r) = false => destruct (best <? r) eqn:E' end;
          [|reflexivity].
        rewrite <- R2. symmetry. eapply ltb_trans; eauto.
      * constructor; assumption.
    + destruct (IH best Hb Hn') as [R1 [R2 R3]].
      split; [exact R1|]. split; [exact R2|].
      constructor; [|exact R3].
      match goal with |- (?d <? ?r) = false => destruct (d <? r) eqn:E' end;
        [|reflexivity].
      destruct (ltb_cotrans _ best _ Hb E') as [C|C]; cbv zeta in *;
        [rewrite E in C|rewrite R2 in C]; discriminate.
Qed.

Lemma nearest_distance_least (data : matrix) (q : vec) :
  no_nan (map (euclidean q) data) ->
  Forall (fun p => (euclidean q p <? nearest_distance data q) = false) data.
Proof.
  intros Hn. unfold nearest_distance.
  now apply (nearest_distance_fold_least q data infinity eq_refl Hn).
Qed.

(** C6, as amended.  For non-empty, finite query and reference sets of
    the same width, [getLAinsert] returns a single point, and it is one of
    the query points: the one at the index [np.argmin] finds among the
    nearest-neighbour distances, below whose distance no other query point's
    distance lies. *)
Theorem getLAinsert_returns_nearest_insert (inserts sep_points : matrix) :
  inserts <> [] -> sep_points <> [] ->
  all_finite inserts = true -> all_finite sep_points = true ->
  shape1 inserts = shape1 sep_points ->
  exists k,
    (k < length inserts)%nat
    /\ getLAinsert inserts sep_points = Ok (row inserts k)
    /\ In (row inserts k) inserts
    /\ (no_nan (map (nearest_distance sep_points) inserts) ->
        forall q, In q inserts ->
          (nearest_distance sep_points q
           <? nearest_distance sep_points (row inserts k)) = false).
Proof.
  intros Hi Hs Fi Fs Hc. unfold getLAinsert.
  rewrite (KDTree_query_ok sep_points inserts Hs Hi Fs Fi Hc). cbn [bind].
  destruct (argmin_nonempty (map (nearest_distance sep_points) inserts))
    as [k Hk].
  { destruct inserts; [congruence|discriminate]. }
  rewrite Hk. cbn [bind]. exists k.
  pose proof (argmin_lt _ _ Hk) as Hlt. rewrite length_map in Hlt.
  split; [exact Hlt|]. split; [reflexivity|].
  split; [now apply nth_In|].
  intros Hn q Hq.
  pose proof (argmin_least _ _ Hn Hk) as Hmin. rewrite Forall_forall in Hmin.
  specialize (Hmin (nearest_distance sep_points q) (in_map _ _ _ Hq)).
  rewrite (nth_indep _ nan (nearest_distance sep_points [])) in Hmin
    by now rewrite length_map.
  now rewrite (map_nth (nearest_distance sep_points)) in Hmin.
Qed.

Lemma getLAinsert_nearest_insert_witness :
  exists k,
    (k < length query_points)%nat
    /\ getLAinsert query_points reference_points = Ok (row query_points k)
    /\ In (row query_points k) query_points
    /\ (no_nan (map (nearest_distance reference_points) query_points) ->
        forall q, In q query_points ->
          (nearest_distance reference_points q
           <? nearest_distance reference_points (row query_points k)) = false).
Proof.
  apply (getLAinsert_returns_nearest_insert query_points reference_points).
  - discriminate.
  - discriminate.
  - vm_compute. reflexivity.
  - vm_compute. reflexivity.
  - reflexivity.
Defined.

(** C6 as stated fails: for two query points the result is the single
    point [(0, 0)], a query point that is not in the reference set. *)
Lemma getLAinsert_returns_a_query_point :
  getLAinsert query_points reference_points = Ok [0; 0]
  /\ ~ In [0; 0] reference_points
  /\ length query_points = 2%nat.
Proof.
  split; [vm_compute; reflexivity|]. split; [|reflexivity].
  intros [H|[]]. revert H. vm_compute. discriminate.
Qed.

(** * Further properties of the module *)

(** ** removeFarPoints: what is removed *)

Lemma subsequence_refl {A : Type} (l : list A) : subsequence l l.
Proof. induction l; constructor; assumption. Qed.

Lemma keep_unlisted_subsequence {A : Type} (arr : list A) (drop : list nat)
  (i : nat) : subsequence (keep_unlisted i arr drop) arr.
Proof.
  revert i. induction arr as [|a arr IH]; intros i; cbn [keep_unlisted].
  - constructor.
  - destruct (existsb (Nat.eqb i) drop); constructor; apply IH.
Qed.

Lemma keep_unlisted_nil {A : Type} (arr : list A) (i : nat) :
  keep_unlisted i arr [] = arr.
Proof.
  revert i. induction arr as [|a arr IH]; intros i; cbn [keep_unlisted existsb];
    [reflexivity|]. now rewrite IH.
Qed.

(** Indices within [0 .. n-1] normalise to themselves; the list of
    normalised indices holds the same numbers. *)
Lemma normalize_indices_in_range (n : nat) (l : list Z) (acc : list nat) :
  Forall (fun z => (0 <= z < Z.of_nat n)%Z) l ->
  exists drop,
    for_each l (fun acc i => k <- normalize_index n i ;; Ok (k :: acc)) acc
    = Ok drop
    /\ forall k, In k drop <-> In (Z.of_nat k) l \/ In k acc.
Proof.
  revert acc. induction l as [|z l IH]; intros acc Hl; simpl.
  - exists acc. split; [reflexivity|]. intros k. tauto.
  - inversion Hl as [|? ? Hz Hl']; subst.
    unfold normalize_index at 1.
    replace ((0 <=? z)%Z && (z <? Z.of_nat n)%Z) with true
      by (symmetry; apply andb_true_iff; split;
          [apply Z.leb_le|apply Z.ltb_lt]; lia).
    cbn [bind].
    destruct (IH (Z.to_nat z :: acc) Hl') as [drop [E H]].
    exists drop. split; [exact E|]. intros k. rewrite H. simpl.
    split.
    + intros [?|[?|?]]; auto. left. left. lia.
    + intros [[?|?]|?]; auto. right. left. lia.
Qed.

(** What the loop of [removeFarPoints] collects, whatever the wrap test
    says: entries of [far_indices]. *)
Lemma indicesToRemove_in_range (oldPoints : matrix) :
  oldPoints <> [] ->
  Forall (fun z => (0 <= z < Z.of_nat (length oldPoints))%Z)
         (indicesToRemove_of oldPoints (far_indices_of oldPoints)).
Proof.
  intros Hne. unfold indicesToRemove_of.
  set (far := far_indices_of oldPoints).
  assert (G : forall (ks : list nat) (acc : list Z),
             Forall (fun z => (0 <= z < Z.of_nat (length oldPoints))%Z) acc ->
             Forall (fun z => (0 <= z < Z.of_nat (length oldPoints))%Z)
                    (fold_left (removeFarPoints_step oldPoints far) ks acc)).
  { induction ks as [|i ks IH]; intros acc Hacc; simpl; [exact Hacc|].
    apply IH. unfold removeFarPoints_step. subst far.
    destruct (_ && _).
    - apply Forall_app. split; [exact Hacc|]. constructor; [|constructor].
      now apply far_at_bounds.
    - destruct (_ =? 1)%Z; [|exact Hacc].
      apply Forall_app. split; [exact Hacc|]. constructor; [|constructor].
      now apply far_at_bounds. }
  apply G. constructor.
Qed.

(** X1.  [removeFarPoints] returns on every matrix, and what it returns is
    the input with some rows left out: it adds, changes and reorders
    nothing. *)
Theorem removeFarPoints_returns_subsequence (oldPoints : matrix) :
  exists newPoints,
    removeFarPoints oldPoints = Ok newPoints
    /\ subsequence newPoints oldPoints.
Proof.
  unfold removeFarPoints.
  destruct (shape0 oldPoints <=? 2)%nat eqn:Hsmall;
    [eexists; split; [reflexivity|apply subsequence_refl]|].
  destruct (1 <? length (far_indices_of oldPoints))%nat;
    [|eexists; split; [reflexivity|apply subsequence_refl]].
  apply Nat.leb_gt in Hsmall. unfold shape0 in Hsmall.
  assert (Hne : oldPoints <> [])
    by (destruct oldPoints; simpl in *; [lia|discriminate]).
  unfold deleteHelper.
  destruct (size oldPoints =? 0)%nat;
    [eexists; split; [reflexivity|apply subsequence_refl]|].
  cbn [emptyNdarrayCheck_indices delete].
  destruct (normalize_indices_in_range (length oldPoints) _ []
              (indicesToRemove_in_range oldPoints Hne)) as [drop [E _]].
  rewrite E. cbn [bind]. eexists. split; [reflexivity|].
  apply keep_unlisted_subsequence.
Qed.






(** ** np.argmax returns an index of a greatest element *)

Lemma argmax_from_lt (l pre : vec) (mp : float) (best : nat) :
  (best < length pre)%nat ->
  (argmax_from l (length pre) mp best < length (pre ++ l))%nat.
Proof.
  revert pre mp best. induction l as [|x l IH]; intros pre mp best Hb; simpl.
  - rewrite length_app. simpl. lia.
  - destruct (PrimFloat.is_nan mp); [rewrite length_app; simpl; lia|].
    replace (pre ++ x :: l) with ((pre ++ [x]) ++ l) by now rewrite <- app_assoc.
    replace (S (length pre)) with (length (pre ++ [x]))
      by (rewrite length_app; simpl; lia).
    destruct (negb (x <=? mp)); apply IH; rewrite length_app; simpl; lia.
Qed.

Lemma argmax_lt (l : vec) (k : nat) : argmax l = Ok k -> (k < length l)%nat.
Proof.
  destruct l as [|x l]; [discriminate|]. simpl. intros [= <-].
  apply (argmax_from_lt l [x] x 0). simpl. lia.
Qed.

Lemma argmax_nonempty (l : vec) : l <> [] -> exists k, argmax l = Ok k.
Proof. destruct l; [congruence|]. simpl. eauto. Qed.

Lemma argmax_from_greatest (l pre : vec) (mp : float) (best : nat) :
  no_nan (pre ++ l) ->
  (best < length pre)%nat -> nth best pre nan = mp ->
  Forall (fun e => (mp <? e) = false) pre ->
  Forall (fun e => (nth (argmax_from l (length pre) mp best) (pre ++ l) nan <? e)
                   = false)
         (pre ++ l).
Proof.
  revert pre mp best. induction l as [|x l IH]; intros pre mp best Hn Hb Hm Hp;
    unfold no_nan in *; simpl.
  - rewrite app_nil_r, Hm. exact Hp.
  - assert (Hmp : PrimFloat.is_nan mp = false).
    { rewrite Forall_forall in Hn. apply Hn. apply in_or_app. left.
      rewrite <- Hm. now apply nth_In. }
    assert (Hx : PrimFloat.is_nan x = false).
    { rewrite Forall_forall in Hn. apply Hn. apply in_or_app. right. now left. }
    rewrite Hmp.
    replace (pre ++ x :: l) with ((pre ++ [x]) ++ l) in *
      by now rewrite <- app_assoc.
    replace (S (length pre)) with (length (pre ++ [x]))
      by (rewrite length_app; simpl; lia).
    destruct (x <=? mp) eqn:E; simpl.
    + apply IH; trivial.
      * rewrite length_app; simpl; lia.
      * rewrite app_nth1; trivial.
      * apply Forall_app. split; [exact Hp|].
        constructor; [|constructor]. now apply leb_not_ltb.
    + pose proof (not_leb_ltb _ _ Hx Hmp E) as Hlt.
      apply IH; trivial.
      * rewrite length_app; simpl; lia.
      * rewrite app_nth2, Nat.sub_diag; trivial. lia.
      * apply Forall_app. split.
        -- rewrite Forall_forall in *. intros e He.
           destruct (x <? e) eqn:Ee; [|reflexivity].
           rewrite <- (Hp e He). symmetry. now apply ltb_trans with x.
        -- constructor; [|constructor]. apply ltb_irrefl.
Qed.

Lemma argmax_greatest (l : vec) (k : nat) :
  no_nan l -> argmax l = Ok k ->
  Forall (fun e => (nth k l nan <? e) = false) l.
Proof.
  destruct l as [|x l]; [discriminate|]. unfold no_nan. simpl. intros Hn [= <-].
  apply (argmax_from_greatest l [x] x 0 Hn); simpl; trivial; try lia.
  constructor; [|constructor]. apply ltb_irrefl.
Qed.

(** ** getRVinsertIndices: the indices it returns *)

Lemma any_false_iff (mask : list bool) :
  any mask = false <-> Forall (fun b => b = false) mask.
Proof.
  unfold any. induction mask as [|b mask IH]; simpl.
  - split; [constructor|reflexivity].
  - destruct b; simpl.
    + split; [discriminate|]. intros H. inversion H. discriminate.
    + rewrite IH. split; [now constructor|]. intros H. now inversion H.
Qed.

(** X3.  [getRVinsertIndices] never raises.  Its result is empty exactly
    when no cyclic distance exceeds the threshold; otherwise it is a pair of
    valid row indices, [k, k + 1] or, for the wrap-around distance,
    [0, n - 1]. *)
Theorem getRVinsertIndices_returns_valid_pair (points : matrix) :
  let n := Z.of_nat (length points) in
  (getRVinsertIndices points = Ok []
   <-> Forall (fun d => (upperThreshold_of points <? d) = false)
              (pointDistances points))
  /\ (getRVinsertIndices points = Ok []
      \/ (exists k, (0 <= k)%Z /\ (k + 1 < n)%Z
                    /\ getRVinsertIndices points = Ok [k; (k + 1)%Z])
      \/ ((1 <= n)%Z /\ getRVinsertIndices points = Ok [0%Z; (n - 1)%Z])).
Proof.
  intros n. unfold getRVinsertIndices. fold (upperThreshold_of points).
  destruct (any _) eqn:Hany.
  - assert (Hne : pointDistances points <> []).
    { intros E. rewrite E in Hany. discriminate. }
    destruct (argmax_nonempty _ Hne) as [k Hk]. rewrite Hk. cbn [bind].
    pose proof (argmax_lt _ _ Hk) as Hlt. rewrite pointDistances_length in Hlt.
    split.
    + split.
      * destruct (_ =? _)%Z; discriminate.
      * intros HF. exfalso.
        assert (Hno : any (map (fun d => upperThreshold_of points <? d)
                               (pointDistances points)) = false).
        { apply any_false_iff, Forall_forall. intros b Hb.
          apply in_map_iff in Hb. destruct Hb as [d [<- Hd]].
          rewrite Forall_forall in HF. now apply HF. }
        rewrite Hno in Hany. discriminate.
    + right. destruct (_ =? _)%Z eqn:E.
      * right. apply Z.eqb_eq in E. subst n. split; [lia|].
        now rewrite E.
      * left. apply Z.eqb_neq in E. exists (Z.of_nat k). subst n.
        repeat split; lia.
  - split; [|now left]. split; [intros _|reflexivity].
    apply any_false_iff in Hany. apply Forall_forall. intros d Hd.
    rewrite Forall_forall in Hany. apply Hany.
    now apply (in_map (fun d => upperThreshold_of points <? d)).
Qed.

(** X4.  When no distance is a NaN and the result is a pair, the pair
    spans a largest cyclic distance: the distance at index [k] exceeds the
    threshold, no distance is above it, and the pair is [k, k + 1], or
    [0, k] when [k] is the last index. *)
Theorem getRVinsertIndices_spans_largest_distance (points : matrix) (a b : Z) :
  no_nan (pointDistances points) ->
  getRVinsertIndices points = Ok [a; b] ->
  exists k d,
    nth_error (pointDistances points) k = Some d
    /\ (upperThreshold_of points <? d) = true
    /\ Forall (fun d' => (d <? d') = false) (pointDistances points)
    /\ ((a = Z.of_nat k /\ b = (a + 1)%Z /\ (S k < length points)%nat)
        \/ (a = 0%Z /\ b = Z.of_nat k /\ S k = length points)).
Proof.
  intros Hn. unfold getRVinsertIndices. fold (upperThreshold_of points).
  destruct (any _) eqn:Hany; [|discriminate].
  destruct (argmax (pointDistances points)) as [k|e] eqn:Hk; [|discriminate].
  cbn [bind]. intros Hres.
  pose proof (argmax_lt _ _ Hk) as Hlt.
  pose proof (argmax_greatest _ _ Hn Hk) as Hmax.
  exists k, (nth k (pointDistances points) nan).
  split; [now apply nth_error_nth'|]. split; [|split; [exact Hmax|]].
  - unfold any in Hany. apply existsb_exists in Hany.
    destruct Hany as [b' [Hb' ->]]. apply in_map_iff in Hb'.
    destruct Hb' as [d [Hd Hin]].
    assert (Hdk : PrimFloat.is_nan (nth k (pointDistances points) nan) = false).
    { unfold no_nan in Hn. rewrite Forall_forall in Hn. apply Hn.
      now apply nth_In. }
    destruct (ltb_cotrans _ (nth k (pointDistances points) nan) _ Hdk Hd)
      as [C|C]; [exact C|].
    rewrite Forall_forall in Hmax. rewrite (Hmax d Hin) in C. discriminate.
  - rewrite pointDistances_length in Hlt.
    destruct (_ =? _)%Z eqn:E; injection Hres as <- <-.
    + right. apply Z.eqb_eq in E. repeat split; lia.
    + left. apply Z.eqb_neq in E. repeat split; lia.
Qed.

Lemma getRVinsertIndices_spans_largest_distance_witness :
  exists k d,
    nth_error (pointDistances gap_contour) k = Some d
    /\ (upperThreshold_of gap_contour <? d) = true
    /\ Forall (fun d' => (d <? d') = false) (pointDistances gap_contour)
    /\ ((9%Z = Z.of_nat k /\ 10%Z = (9 + 1)%Z /\ (S k < length gap_contour)%nat)
        \/ (9%Z = 0%Z /\ 10%Z = Z.of_nat k /\ S k = length gap_contour)).
Proof.
  apply (getRVinsertIndices_spans_largest_distance gap_contour 9 10).
  - vm_compute. repeat constructor.
  - vm_compute. reflexivity.
Defined.

(** ** sharedRows: the matching it returns *)

Lemma StronglySorted_snoc (l : list nat) (i : nat) :
  StronglySorted lt l -> Forall (fun k => (k < i)%nat) l ->
  StronglySorted lt (l ++ [i]).
Proof.
  induction 1 as [|x l Hs IH Hx]; intros Hi; simpl.
  - repeat constructor.
  - inversion Hi; subst. constructor; [now apply IH|].
    apply Forall_app. split; [exact Hx|]. now repeat constructor.
Qed.

Lemma NoDup_snoc {A : Type} (l : list A) (x : A) :
  NoDup l -> ~ In x l -> NoDup (l ++ [x]).
Proof.
  intros Hl Hx. apply NoDup_rev in Hl. rewrite <- (rev_involutive (l ++ [x])).
  apply NoDup_rev. rewrite rev_app_distr. simpl. constructor; [|exact Hl].
  now rewrite <- in_rev.
Qed.

Section ScanOrder.

Variables arr1 arr2 : matrix.

Lemma sharedRows_body_order (i : nat) (st : list nat * list nat) (j : nat) :
  scan_order i st -> scan_order i (sharedRows_body arr1 arr2 i st j).
Proof.
  destruct st as [s1 s2]. intros [Hs [Hle Hn]]. unfold sharedRows_body.
  destruct (mem_nat i s1 || mem_nat j s2) eqn:Hm; [now repeat split|].
  destruct (row_equal _ _); [|now repeat split].
  apply orb_false_iff in Hm. destruct Hm as [Hi Hj].
  assert (Hi' : ~ In i s1) by (rewrite <- mem_nat_In; congruence).
  assert (Hj' : ~ In j s2) by (rewrite <- mem_nat_In; congruence).
  simpl in *. repeat split.
  - apply StronglySorted_snoc; [exact Hs|].
    rewrite Forall_forall in *. intros k Hk. specialize (Hle k Hk).
    assert (k <> i) by (intros ->; contradiction). lia.
  - apply Forall_app. split; [exact Hle|]. now repeat constructor.
  - now apply NoDup_snoc.
Qed.

Lemma sharedRows_outer_order (i : nat) (st : list nat * list nat) :
  scan_order i st -> scan_order i (sharedRows_outer arr1 arr2 st i).
Proof.
  unfold sharedRows_outer. generalize (seq 0 (shape0 arr2)). intros js.
  revert st. induction js as [|j js IH]; intros st H; simpl; [exact H|].
  apply IH. now apply sharedRows_body_order.
Qed.

Lemma scan_order_mono (i i' : nat) (st : list nat * list nat) :
  (i <= i')%nat -> scan_order i st -> scan_order i' st.
Proof.
  intros Hii [Hs [Hle Hn]]. repeat split; trivial.
  eapply Forall_impl; [|exact Hle]. simpl. intros k. lia.
Qed.

Lemma sharedIndices_order :
  StronglySorted lt (fst (sharedIndices arr1 arr2))
  /\ NoDup (snd (sharedIndices arr1 arr2)).
Proof.
  unfold sharedIndices.
  assert (G : forall n start st,
             scan_order start st ->
             scan_order (start + n)
               (fold_left (sharedRows_outer arr1 arr2) (seq start n) st)).
  { induction n as [|n IH]; intros start st H; simpl.
    - now rewrite Nat.add_0_r.
    - replace (start + S n)%nat with (S start + n)%nat by lia.
      apply IH. apply scan_order_mono with start; [lia|].
      now apply sharedRows_outer_order. }
  destruct (G (shape0 arr1) 0%nat ([], [])) as [Hs [_ Hn]].
  - repeat split; constructor.
  - now split.
Qed.

End ScanOrder.

(** X5.  What [sharedRows] returns is a matching between the rows of the
    two matrices: the index lists have the same length, hold valid row
    indices, pair equal rows position by position, and no row is matched
    twice; the indices into [arr1] are increasing, and the shared rows are the
    rows of [arr1] at those indices. *)
Theorem sharedRows_returns_matching (a b : matrix) (rows : matrix)
  (idx1 idx2 : list nat) :
  sharedRows (Some a) (Some b) = Ok (rows, idx1, idx2) ->
  rows = map (row a) idx1
  /\ length idx1 = length idx2
  /\ Forall2 (fun i j => row_equal (row a i) (row b j) = true) idx1 idx2
  /\ Forall (fun i => (i < length a)%nat) idx1
  /\ Forall (fun j => (j < length b)%nat) idx2
  /\ StronglySorted lt idx1
  /\ NoDup idx2.
Proof.
  unfold sharedRows.
  destruct (_ || _).
  - intros [= <- <- <-]. repeat split; constructor.
  - destruct (negb _); [discriminate|].
    destruct (sharedIndices_spec a b) as [Hp _].
    destruct (sharedIndices_bounded a b) as [Hb1 Hb2].
    destruct (sharedIndices_order a b) as [Hs Hn].
    destruct (sharedIndices a b) as [s1 s2]. intros [= <- <- <-].
    unfold paired in Hp. simpl in *.
    repeat split; trivial. eapply Forall2_length; eauto.
Qed.

Lemma sharedRows_returns_matching_witness :
  [[1; 2]; [3; 4]] = map (row [[1; 2]; [3; 4]; [1; 2]]) [0; 1]%nat
  /\ length [0; 1]%nat = length [1; 0]%nat
  /\ Forall2 (fun i j => row_equal (row [[1; 2]; [3; 4]; [1; 2]] i)
                                   (row [[3; 4]; [1; 2]; [5; 6]] j) = true)
             [0; 1]%nat [1; 0]%nat
  /\ Forall (fun i => (i < length [[1; 2]; [3; 4]; [1; 2]])%nat) [0; 1]%nat
  /\ Forall (fun j => (j < length [[3; 4]; [1; 2]; [5; 6]])%nat) [1; 0]%nat
  /\ StronglySorted lt [0; 1]%nat
  /\ NoDup [1; 0]%nat.
Proof.
  apply (sharedRows_returns_matching [[1; 2]; [3; 4]; [1; 2]]
           [[3; 4]; [1; 2]; [5; 6]]).
  vm_compute. reflexivity.
Defined.

(** X6.  The matching of [sharedRows] is maximal: for two non-empty
    matrices, whenever row [i] of the first equals row [j] of the second, at
    least one of the two is among the matched rows. *)
Theorem sharedRows_matching_maximal (a b : matrix) (rows : matrix)
  (idx1 idx2 : list nat) (i j : nat) :
  size a <> 0%nat -> size b <> 0%nat ->
  sharedRows (Some a) (Some b) = Ok (rows, idx1, idx2) ->
  (i < length a)%nat -> (j < length b)%nat ->
  row_equal (row a i) (row b j) = true ->
  In i idx1 \/ In j idx2.
Proof.
  intros Ha Hb. unfold sharedRows.
  apply Nat.eqb_neq in Ha, Hb. rewrite Ha, Hb. cbn [orb].
  destruct (negb _); [discriminate|].
  destruct (sharedIndices_spec a b) as [_ Hmax].
  destruct (sharedIndices a b) as [s1 s2]. intros [= <- <- <-] Hi Hj E.
  apply (Hmax i j); trivial; apply in_seq; lia.
Qed.

Lemma sharedRows_matching_maximal_witness :
  In 2%nat [0; 1]%nat \/ In 1%nat [1; 0]%nat.
Proof.
  apply (sharedRows_matching_maximal [[1; 2]; [3; 4]; [1; 2]]
           [[3; 4]; [1; 2]; [5; 6]] [[1; 2]; [3; 4]] [0; 1]%nat [1; 0]%nat
           2 1).
  - discriminate.
  - discriminate.
  - vm_compute. reflexivity.
  - simpl. lia.
  - simpl. lia.
  - vm_compute. reflexivity.
Defined.

(** ** removeZerorows and calcApex *)

Lemma removeZerorows_idempotent (arr : matrix) :
  removeZerorows (removeZerorows arr) = removeZerorows arr.
Proof.
  unfold removeZerorows. induction arr as [|r arr IH]; simpl; [reflexivity|].
  destruct (existsb _ r) eqn:E; simpl; [rewrite E|]; now rewrite IH.
Qed.

Lemma concat_map_nil {A B : Type} (l : list A) :
  concat (map (fun _ => @nil B) l) = [].
Proof. induction l; simpl; trivial. Qed.

Lemma cdist_ok (XA XB : matrix) (dist : matrix) :
  cdist XA XB = Ok dist -> dist = map (fun a => map (euclidean a) XB) XA.
Proof.
  unfold cdist. destruct XA, XB; try (now intros [= <-]).
  destruct (negb _); [discriminate|]. now intros [= <-].
Qed.

(** X7.  [calcApex] raises exactly when one of the two sets has no
    non-zero row, or the two sets have different widths, and what it raises
    then is [ValueError]. *)
Theorem calcApex_raises_iff (epiPts1 epiPts2 : matrix) (e : exn) :
  calcApex epiPts1 epiPts2 = Raise e
  <-> e = ValueError
      /\ (removeZerorows epiPts1 = []
          \/ removeZerorows epiPts2 = []
          \/ shape1 (removeZerorows epiPts1) <> shape1 (removeZerorows epiPts2)).
Proof.
  unfold calcApex, cdist.
  destruct (removeZerorows epiPts1) as [|a f1] eqn:E1.
  - simpl. split; [intros [= <-]; auto|]. now intros [-> _].
  - destruct (removeZerorows epiPts2) as [|b f2] eqn:E2.
    + cbn [bind map concat]. rewrite concat_map_nil. simpl.
      split; [intros [= <-]; auto|]. now intros [-> _].
    + destruct (shape1 (a :: f1) =? shape1 (b :: f2))%nat eqn:Hw; cbn [negb bind].
      * apply Nat.eqb_eq in Hw. simpl. split; [discriminate|].
        intros [_ [H|[H|H]]]; congruence.
      * apply Nat.eqb_neq in Hw. split; [intros [= <-]; auto|].
        now intros [-> _].
Qed.

(** X8.  Zero rows of the second set play no part: removing them
    beforehand does not change the result of [calcApex]. *)
Theorem calcApex_ignores_zero_rows_of_second (epiPts1 epiPts2 : matrix) :
  calcApex epiPts1 (removeZerorows epiPts2) = calcApex epiPts1 epiPts2.
Proof. unfold calcApex. now rewrite removeZerorows_idempotent. Qed.

Lemma nth_concat_uniform {A : Type} (ll : list (list A)) (c flat : nat) (d : A) :
  Forall (fun l => length l = c) ll -> (0 < c)%nat ->
  nth flat (concat ll) d = nth (flat mod c) (nth (flat / c) ll []) d.
Proof.
  intros Hll Hc. revert flat.
  induction Hll as [|l ll Hl _ IH]; intros flat; simpl.
  - destruct (flat / c)%nat, (flat mod c)%nat, flat; reflexivity.
  - destruct (Nat.lt_ge_cases flat c) as [Hlt|Hge].
    + rewrite app_nth1 by lia.
      now rewrite Nat.div_small, Nat.mod_small by exact Hlt.
    + rewrite app_nth2 by lia. rewrite Hl, IH.
      replace flat with ((flat - c) + 1 * c)%nat at 3 4 by lia.
      rewrite Nat.div_add, Nat.Div0.mod_add by lia.
      now rewrite Nat.add_1_r.
Qed.

Lemma length_concat_uniform {A : Type} (ll : list (list A)) (c : nat) :
  Forall (fun l => length l = c) ll -> length (concat ll) = (length ll * c)%nat.
Proof.
  induction 1 as [|l ll Hl _ IH]; simpl; [reflexivity|].
  rewrite length_app. lia.
Qed.

(** The index [calcApex] computes: a row [k] and a column [j] of the
    distance matrix of the filtered sets, holding a least distance. *)
Lemma calcApex_index (epiPts1 epiPts2 : matrix) (r : vec) :
  calcApex epiPts1 epiPts2 = Ok r ->
  exists k j,
    (k < length (removeZerorows epiPts1))%nat
    /\ (j < length (removeZerorows epiPts2))%nat
    /\ r = row epiPts1 k
    /\ (no_nan (concat (apex_distances epiPts1 epiPts2)) ->
        forall a b, In a (removeZerorows epiPts1) ->
                    In b (removeZerorows epiPts2) ->
          (euclidean a b
           <? euclidean (row (removeZerorows epiPts1) k)
                        (row (removeZerorows epiPts2) j)) = false).
Proof.
  unfold calcApex, apex_distances.
  set (f1 := removeZerorows epiPts1). set (f2 := removeZerorows epiPts2).
  destruct (cdist f1 f2) as [dist|e] eqn:Hd; [|discriminate]. cbn [bind].
  apply cdist_ok in Hd. subst dist.
  destruct (argmin _) as [flat|e] eqn:Hf; [|discriminate]. cbn [bind].
  intros [= <-]. unfold shape0.
  assert (Hrows : Forall (fun l : vec => length l = length f2)
                         (map (fun a => map (euclidean a) f2) f1)).
  { apply Forall_forall. intros l Hl. apply in_map_iff in Hl.
    destruct Hl as [a [<- _]]. apply length_map. }
  pose proof (argmin_lt _ _ Hf) as Hlt.
  rewrite (length_concat_uniform _ _ Hrows), length_map in Hlt.
  assert (Hc : (0 < length f2)%nat) by (destruct (length f2); lia).
  assert (Hk : (flat / length f2 < length f1)%nat)
    by (apply Nat.Div0.div_lt_upper_bound; lia).
  assert (Hj : (flat mod length f2 < length f2)%nat)
    by (apply Nat.mod_upper_bound; lia).
  exists (flat / length f2)%nat, (flat mod length f2)%nat.
  split; [exact Hk|]. split; [exact Hj|]. split; [reflexivity|].
  intros Hn a b Ha Hb.
  pose proof (argmin_least _ _ Hn Hf) as Hmin.
  rewrite (nth_concat_uniform _ (length f2) flat nan Hrows Hc) in Hmin.
  rewrite (nth_indep _ [] (map (euclidean []) f2)) in Hmin
    by (now rewrite length_map).
  rewrite (map_nth (fun a => map (euclidean a) f2)) in Hmin.
  fold (row f1 (flat / length f2)) in Hmin.
  rewrite (nth_indep _ nan (euclidean (row f1 (flat / length f2)) []))
    in Hmin by (now rewrite length_map).
  rewrite (map_nth (euclidean (row f1 (flat / length f2)))) in Hmin.
  rewrite Forall_forall in Hmin. apply Hmin.
  apply in_concat. exists (map (euclidean a) f2).
  split; [now apply (in_map (fun a => map (euclidean a) f2))|now apply in_map].
Qed.

(** X9.  When [calcApex] returns, the row it returns is [epiPts1[k]] for
    an index [k] that is valid in the zero-filtered first set and, when no
    distance is a NaN, minimises there the distance to the zero-filtered
    second set; the row is read from the unfiltered [epiPts1]. *)
Theorem calcApex_returns_row_at_filtered_index (epiPts1 epiPts2 : matrix)
  (r : vec) :
  calcApex epiPts1 epiPts2 = Ok r ->
  exists k j,
    (k < length (removeZerorows epiPts1))%nat
    /\ (j < length (removeZerorows epiPts2))%nat
    /\ r = row epiPts1 k
    /\ (no_nan (concat (apex_distances epiPts1 epiPts2)) ->
        forall a b, In a (removeZerorows epiPts1) ->
                    In b (removeZerorows epiPts2) ->
          (euclidean a b
           <? euclidean (row (removeZerorows epiPts1) k)
                        (row (removeZerorows epiPts2) j)) = false).
Proof. apply calcApex_index. Qed.

Lemma calcApex_returns_row_at_filtered_index_witness :
  exists k j,
    (k < length (removeZerorows apex_candidates))%nat
    /\ (j < length (removeZerorows apex_targets))%nat
    /\ [0; 0] = row apex_candidates k
    /\ (no_nan (concat (apex_distances apex_candidates apex_targets)) ->
        forall a b, In a (removeZerorows apex_candidates) ->
                    In b (removeZerorows apex_targets) ->
          (euclidean a b
           <? euclidean (row (removeZerorows apex_candidates) k)
                        (row (removeZerorows apex_targets) j)) = false).
Proof.
  apply (calcApex_returns_row_at_filtered_index apex_candidates apex_targets).
  vm_compute. reflexivity.
Defined.

(** X10.  When [epiPts1] has no all-zero row, [calcApex] returns, if it
    returns, a point of [epiPts1] that is nearest to the non-zero points of
    [epiPts2]: no non-zero pair of points is closer (given that no distance
    is a NaN). *)
Theorem calcApex_nearest_without_zero_rows (epiPts1 epiPts2 : matrix) (r : vec) :
  removeZerorows epiPts1 = epiPts1 ->
  calcApex epiPts1 epiPts2 = Ok r ->
  In r epiPts1
  /\ exists p, In p (removeZerorows epiPts2)
       /\ (no_nan (concat (apex_distances epiPts1 epiPts2)) ->
           forall a b, In a epiPts1 -> In b (removeZerorows epiPts2) ->
             (euclidean a b <? euclidean r p) = false).
Proof.
  intros Hz Hr. destruct (calcApex_index _ _ _ Hr) as [k [j [Hk [Hj [-> H]]]]].
  rewrite Hz in *. split; [now apply nth_In|].
  exists (row (removeZerorows epiPts2) j). split; [now apply nth_In|].
  exact H.
Qed.

Lemma calcApex_nearest_without_zero_rows_witness :
  In [5; 5] [[9; 9]; [5; 5]]
  /\ exists p, In p (removeZerorows [[0; 0]; [5; 6]])
       /\ (no_nan (concat (apex_distances [[9; 9]; [5; 5]] [[0; 0]; [5; 6]])) ->
           forall a b, In a [[9; 9]; [5; 5]] ->
                       In b (removeZerorows [[0; 0]; [5; 6]]) ->
             (euclidean a b <? euclidean [5; 5] p) = false).
Proof.
  apply (calcApex_nearest_without_zero_rows [[9; 9]; [5; 5]] [[0; 0]; [5; 6]]).
  - vm_compute. reflexivity.
  - vm_compute. reflexivity.
Defined.

(** ** interpTime: recorded samples *)

Lemma keep_unmasked_zero_mask (col : vec) :
  keep_unmasked col (map (fun v => v =? 0) col) = recorded col.
Proof.
  unfold recorded. induction col as [|x col IH]; simpl; [reflexivity|].
  destruct (x =? 0); simpl; now rewrite IH.
Qed.

(** Over a number of frames other than 1, the samples that reach the
    interpolation are the recorded ones, in order. *)
Lemma nonzero_samples_recorded (col : vec) :
  length col <> 1%nat -> nonzero_samples col = Ok (recorded col).
Proof.
  intros Hlen. unfold nonzero_samples, np_squeeze.
  destruct col as [|x [|y col]]; [reflexivity|simpl in Hlen; congruence|].
  unfold deleteHelper, emptyNdarrayCheck_indices, delete.
  rewrite length_map, Nat.eqb_refl. cbn [length Nat.eqb].
  now rewrite keep_unmasked_zero_mask.
Qed.

Lemma interpTime_pair_recorded (oldValvePts : ndarray3) (n i j : nat) :
  shape3_0 oldValvePts <> 1%nat ->
  interpTime_pair oldValvePts n i j
  = if negb (length (recorded (samples_of oldValvePts i j)) =? 0)%nat
    then Ok (np_interp (np_linspace 1 100 n)
               (np_linspace 1 100 (length (recorded (samples_of oldValvePts i j))))
               (recorded (samples_of oldValvePts i j)))
    else Raise TypeError.
Proof.
  intros Hf. unfold interpTime_pair. fold (samples_of oldValvePts i j).
  rewrite nonzero_samples_recorded
    by (unfold samples_of; now rewrite length_map, length_seq).
  reflexivity.
Qed.

Lemma for_each_ext {A S : Type} (body body' : S -> A -> result S)
  (xs : list A) (acc : S) :
  (forall s x, In x xs -> body s x = body' s x) ->
  for_each xs body acc = for_each xs body' acc.
Proof.
  revert acc. induction xs as [|x xs IH]; intros acc H; simpl; [reflexivity|].
  rewrite (H acc x (or_introl eq_refl)).
  destruct (body' acc x); simpl; [|reflexivity].
  apply IH. intros s y Hy. apply H. now right.
Qed.

(** X11.  Zero entries are treated as absent: two landmark tracks of the
    same landmark and coordinate counts (each over a number of frames other
    than 1) whose recorded samples agree pair by pair give the same result,
    whatever the number and the place of their zero entries. *)
Theorem interpTime_depends_on_recorded_samples (a b : ndarray3) (n : nat) :
  shape3_0 a <> 1%nat -> shape3_0 b <> 1%nat ->
  shape3_1 a = shape3_1 b -> shape3_2 a = shape3_2 b ->
  (forall i j, (i < shape3_1 a)%nat -> (j < shape3_2 a)%nat ->
     recorded (samples_of a i j) = recorded (samples_of b i j)) ->
  interpTime a n = interpTime b n.
Proof.
  intros Ha Hb H1 H2 Hrec. unfold interpTime. rewrite <- H1, <- H2.
  f_equal. apply for_each_ext. intros s i Hi. apply in_seq in Hi.
  f_equal. apply for_each_ext. intros s' j Hj. apply in_seq in Hj.
  rewrite !interpTime_pair_recorded by assumption.
  now rewrite Hrec by lia.
Qed.

Lemma interpTime_depends_on_recorded_samples_witness :
  interpTime sparse_track 5
  = interpTime padded_track 5.
Proof.
  apply interpTime_depends_on_recorded_samples.
  - simpl. discriminate.
  - simpl. discriminate.
  - reflexivity.
  - reflexivity.
  - simpl. intros i j Hi Hj.
    destruct i; [|lia]. destruct j; [|lia]. vm_compute. reflexivity.
Defined.

Lemma for_each_collect {A B : Type} (g : A -> result B) (h : A -> B)
  (xs : list A) (acc : list B) :
  (forall x, In x xs -> g x = Ok (h x)) ->
  for_each xs (fun acc x => c <- g x ;; Ok (acc ++ [c])) acc
  = Ok (acc ++ map h xs).
Proof.
  revert acc. induction xs as [|x xs IH]; intros acc H; simpl.
  - now rewrite app_nil_r.
  - rewrite (H x (or_introl eq_refl)). cbn [bind].
    rewrite IH by (intros y Hy; apply H; now right).
    now rewrite <- app_assoc.
Qed.

Lemma nth_map_seq {B : Type} (h : nat -> B) (n k : nat) (d : B) :
  (k < n)%nat -> nth k (map h (seq 0 n)) d = h k.
Proof.
  intros Hk. rewrite (nth_indep _ d (h 0%nat)) by now rewrite length_map, length_seq.
  rewrite (map_nth h), seq_nth by exact Hk. reflexivity.
Qed.

(** X12.  When every pair has a recorded sample (and the number of
    frames is not 1), [interpTime] returns an array of shape
    [(newNumInterpSamples, landmarks, coordinates)] whose slice for the pair
    [(i, j)] is the interpolation of the recorded samples of that pair,
    placed uniformly on [1, 100], at the uniformly placed query points. *)
Theorem interpTime_returns_interpolated_slices (oldValvePts : ndarray3)
  (newNumInterpSamples : nat) :
  shape3_0 oldValvePts <> 1%nat ->
  (forall i j, (i < shape3_1 oldValvePts)%nat ->
               (j < shape3_2 oldValvePts)%nat ->
               recorded (samples_of oldValvePts i j) <> []) ->
  exists result,
    interpTime oldValvePts newNumInterpSamples = Ok result
    /\ shape3_0 result = newNumInterpSamples
    /\ shape3_1 result = shape3_1 oldValvePts
    /\ shape3_2 result = shape3_2 oldValvePts
    /\ forall i j f,
         (i < shape3_1 oldValvePts)%nat -> (j < shape3_2 oldValvePts)%nat ->
         at3 result f i j
         = nth f (np_interp
                    (np_linspace 1 100 newNumInterpSamples)
                    (np_linspace 1 100
                       (length (recorded (samples_of oldValvePts i j))))
                    (recorded (samples_of oldValvePts i j))) 0.
Proof.
  intros Hf Hrec. unfold interpTime.
  set (h := fun i j =>
              np_interp (np_linspace 1 100 newNumInterpSamples)
                (np_linspace 1 100 (length (recorded (samples_of oldValvePts i j))))
                (recorded (samples_of oldValvePts i j))).
  assert (Hpair : forall i j, (i < shape3_1 oldValvePts)%nat ->
                              (j < shape3_2 oldValvePts)%nat ->
            interpTime_pair oldValvePts newNumInterpSamples i j = Ok (h i j)).
  { intros i j Hi Hj. rewrite interpTime_pair_recorded by exact Hf.
    specialize (Hrec i j Hi Hj).
    destruct (recorded (samples_of oldValvePts i j)) eqn:E; [congruence|].
    subst h. cbv beta. rewrite E. reflexivity. }
  rewrite (for_each_collect
             (fun i => for_each (seq 0 (shape3_2 oldValvePts))
                         (fun acc' j =>
                            c <- interpTime_pair oldValvePts newNumInterpSamples i j ;;
                            Ok (acc' ++ [c])) [])
             (fun i => map (h i) (seq 0 (shape3_2 oldValvePts)))).
  - cbn [bind app]. eexists. split; [reflexivity|]. cbn [shape3_0 shape3_1 shape3_2 at3].
    repeat split. intros i j f Hi Hj.
    rewrite (nth_map_seq (fun i => map (h i) (seq 0 (shape3_2 oldValvePts))))
      by exact Hi.
    now rewrite (nth_map_seq (h i)) by exact Hj.
  - intros i Hi. apply in_seq in Hi.
    rewrite (for_each_collect
               (fun j => interpTime_pair oldValvePts newNumInterpSamples i j)
               (h i)); [reflexivity|].
    intros j Hj. apply in_seq in Hj. apply Hpair; lia.
Qed.

Lemma interpTime_returns_interpolated_slices_witness :
  exists result,
    interpTime sparse_track 5
    = Ok result
    /\ shape3_0 result = 5%nat
    /\ shape3_1 result = 1%nat
    /\ shape3_2 result = 1%nat
    /\ forall i j f,
         (i < 1)%nat -> (j < 1)%nat ->
         at3 result f i j
         = nth f (np_interp
                    (np_linspace 1 100 5)
                    (np_linspace 1 100
                       (length (recorded
                          (samples_of sparse_track i j))))
                    (recorded
                       (samples_of sparse_track i j))) 0.
Proof.
  apply (interpTime_returns_interpolated_slices
           sparse_track 5).
  - simpl. discriminate.
  - simpl. intros i j Hi Hj. destruct i; [|lia]. destruct j; [|lia].
    vm_compute. discriminate.
Defined.

(** ** lineNormals2D: segment indices *)

Lemma index_in_range_dec (n : nat) (i : Z) :
  {index_in_range n i} + {~ index_in_range n i}.
Proof.
  unfold index_in_range.
  destruct (Z_le_dec (- Z.of_nat n) i), (Z_lt_dec i (Z.of_nat n));
    (left; lia) || (right; lia).
Qed.

Lemma normalize_index_invalid (n : nat) (i : Z) :
  ~ index_in_range n i -> normalize_index n i = Raise IndexError.
Proof.
  unfold index_in_range, normalize_index. intros H.
  replace ((0 <=? i)%Z && (i <? Z.of_nat n)%Z) with false.
  - replace ((- Z.of_nat n <=? i)%Z && (i <? 0)%Z) with false; [reflexivity|].
    symmetry. apply andb_false_iff.
    destruct (Z_le_dec (- Z.of_nat n) i);
      [right; apply Z.ltb_ge|left; apply Z.leb_gt]; lia.
  - symmetry. apply andb_false_iff.
    destruct (Z_le_dec 0 i); [right; apply Z.ltb_ge|left; apply Z.leb_gt]; lia.
Qed.

Lemma take_rows_invalid {A : Type} (a : list A) (d : A) (idx : list Z) :
  ~ Forall (index_in_range (length a)) idx ->
  take_rows a d idx = Raise IndexError.
Proof.
  unfold take_rows. intros H.
  assert (G : forall acc : list A,
             for_each idx
               (fun acc i => k <- normalize_index (length a) i ;;
                             Ok (acc ++ [nth k a d])) acc
             = Raise IndexError).
  { induction idx as [|i idx IH]; intros acc;
      [exfalso; apply H; constructor|].
    simpl. destruct (index_in_range_dec (length a) i) as [Hi|Hi].
    - destruct (normalize_index_valid _ _ Hi) as [k [-> _]]. cbn [bind].
      apply IH. intros HF. apply H. now constructor.
    - now rewrite (normalize_index_invalid _ _ Hi). }
  apply G.
Qed.

(** X13.  With two or more vertices, a segment that names a vertex index
    outside [-n .. n-1] makes [lineNormals2D] raise [IndexError]. *)
Theorem lineNormals2D_IndexError_on_bad_segment (vertices : list vertex)
  (lineIndices : option (list (Z * Z))) (perpendicular : bool) :
  (2 <= length vertices)%nat ->
  ~ segments_in_range (length vertices) lineIndices ->
  lineNormals2D vertices lineIndices perpendicular = Raise IndexError.
Proof.
  intros H2 Hbad. unfold lineNormals2D.
  replace (negb (length vertices =? 0)%nat && (length vertices <? 2)%nat)
    with false
    by (symmetry; apply andb_false_iff; right; apply Nat.ltb_ge; lia).
  replace (length vertices =? 0)%nat with false
    by (symmetry; apply Nat.eqb_neq; lia).
  destruct lineIndices as [[|p l]|]; simpl in Hbad;
    try solve [exfalso; apply Hbad; constructor].
  cbv beta iota zeta. set (li := p :: l) in *.
  destruct (Forall_dec _ (index_in_range_dec (length vertices)) (map fst li))
    as [F0|F0].
  - destruct (take_rows_valid vertices (0, 0) _ F0) as [v0 [-> _]]. cbn [bind].
    rewrite take_rows_invalid; [reflexivity|].
    intros F1. apply Hbad. apply Forall_forall. intros q Hq.
    rewrite Forall_forall in F0, F1. split.
    + apply F0. now apply in_map.
    + apply F1. now apply in_map.
  - now rewrite take_rows_invalid.
Qed.

Lemma lineNormals2D_IndexError_on_bad_segment_witness :
  lineNormals2D [(0, 0); (1, 0); (1, 1)] (Some [(0, 1); (1, 3)]%Z) false
  = Raise IndexError.
Proof.
  apply lineNormals2D_IndexError_on_bad_segment.
  - simpl. lia.
  - simpl. intros H. inversion H as [|? ? _ H']; subst.
    inversion H' as [|? ? [_ Hr] _]; subst.
    unfold index_in_range in Hr. simpl in Hr. lia.
Defined.

Lemma normalize_index_other (n k k' : nat) (i : Z) :
  ~ names_row n k i -> normalize_index n i = Ok k' -> k' <> k.
Proof.
  unfold names_row, normalize_index. intros Hn.
  destruct ((0 <=? i)%Z && (i <? Z.of_nat n)%Z) eqn:E1.
  - apply andb_true_iff in E1. destruct E1 as [E1 _]. apply Z.leb_le in E1.
    intros [= <-] Heq. apply Hn. left. lia.
  - destruct ((- Z.of_nat n <=? i)%Z && (i <? 0)%Z) eqn:E2; [|discriminate].
    apply andb_true_iff in E2. destruct E2 as [E2 _]. apply Z.leb_le in E2.
    intros [= <-] Heq. apply Hn. right. lia.
Qed.

Lemma set_nth_other {A : Type} (k k' : nat) (v d : A) (l : list A) :
  k' <> k -> nth k (set_nth k' v l) d = nth k l d.
Proof.
  revert k k'. induction l as [|x l IH]; intros k k' H; simpl.
  - now destruct k'.
  - destruct k', k; simpl; try reflexivity; try lia. apply IH. lia.
Qed.

(** Rows that no index names are left as they were by [a[idx, :] = rows]. *)
Lemma put_rows_untouched {A : Type} (a a' : list A) (idx : list Z)
  (rows : list A) (k : nat) (d : A) :
  Forall (fun i => ~ names_row (length a) k i) idx ->
  put_rows a idx rows = Ok a' -> nth k a' d = nth k a d.
Proof.
  unfold put_rows. intros H.
  assert (G : forall (rows' acc : list A),
             for_each (combine idx rows')
               (fun acc p => k <- normalize_index (length a) (fst p) ;;
                             Ok (set_nth k (snd p) acc)) acc = Ok a' ->
             nth k a' d = nth k acc d).
  { induction H as [|i idx Hi _ IH]; intros rows' acc; simpl.
    - now intros [= <-].
    - destruct rows' as [|r rows']; simpl; [now intros [= <-]|].
      destruct (normalize_index (length a) i) as [k'|e] eqn:E; cbn [bind];
        [|discriminate].
      intros Hfe. rewrite (IH _ _ Hfe).
      apply set_nth_other. eapply normalize_index_other; eauto. }
  apply G.
Qed.

Lemma nth_error_zipWith {A B C : Type} (f : A -> B -> C) (xs : list A)
  (ys : list B) (k : nat) (x : A) (y : B) :
  nth_error xs k = Some x -> nth_error ys k = Some y ->
  nth_error (zipWith f xs ys) k = Some (f x y).
Proof.
  unfold zipWith. revert ys k.
  induction xs as [|x' xs IH]; intros [|y' ys] [|k]; simpl; try discriminate.
  - now intros [= ->] [= ->].
  - apply IH.
Qed.

(** X14.  A vertex that is an end point of none of the given segments
    does not get a unit normal: its normal is the zero vector (with a
    negative zero first in perpendicular mode). *)
Theorem lineNormals2D_isolated_vertex_zero (vertices : list vertex)
  (p : Z * Z) (l : list (Z * Z)) (perpendicular : bool) (k : nat) :
  (2 <= length vertices)%nat -> (k < length vertices)%nat ->
  segments_in_range (length vertices) (Some (p :: l)) ->
  isolated_vertex (length vertices) k (p :: l) ->
  exists normals,
    lineNormals2D vertices (Some (p :: l)) perpendicular = Ok normals
    /\ nth_error normals k
       = Some (if perpendicular then (-0, 0) else (0, 0)).
Proof.
  intros H2 Hk Hseg Hiso. unfold lineNormals2D.
  replace (negb (length vertices =? 0)%nat && (length vertices <? 2)%nat)
    with false
    by (symmetry; apply andb_false_iff; right; apply Nat.ltb_ge; lia).
  replace (length vertices =? 0)%nat with false
    by (symmetry; apply Nat.eqb_neq; lia).
  cbv beta iota zeta. set (li := p :: l) in *. simpl in Hseg.
  assert (F0 : Forall (index_in_range (length vertices)) (map fst li)).
  { apply Forall_map_pred. eapply Forall_impl; [|exact Hseg]. now intros q [? _]. }
  assert (F1 : Forall (index_in_range (length vertices)) (map snd li)).
  { apply Forall_map_pred. eapply Forall_impl; [|exact Hseg]. now intros q [_ ?]. }
  destruct (take_rows_valid vertices (0, 0) _ F0) as [v0 [-> _]].
  destruct (take_rows_valid vertices (0, 0) _ F1) as [v1 [-> _]].
  cbn [bind].
  set (DT := zipWith _ (zipWith _ _ _) _).
  set (zeros := repeat (0%float, 0%float) (length vertices)).
  assert (Lz : length zeros = length vertices) by apply repeat_length.
  assert (Z0 : Forall (index_in_range (length zeros)) (map fst li))
    by now rewrite Lz.
  assert (Z1 : Forall (index_in_range (length zeros)) (map snd li))
    by now rewrite Lz.
  destruct (put_rows_valid _ _ DT Z0) as [D1 [E1 L1]].
  destruct (put_rows_valid _ _ DT Z1) as [D2 [E2 L2]].
  rewrite E1, E2. cbn [bind].
  assert (I0 : Forall (fun i => ~ names_row (length zeros) k i) (map fst li)).
  { rewrite Lz. apply Forall_map_pred. eapply Forall_impl; [|exact Hiso].
    now intros q [? _]. }
  assert (I1 : Forall (fun i => ~ names_row (length zeros) k i) (map snd li)).
  { rewrite Lz. apply Forall_map_pred. eapply Forall_impl; [|exact Hiso].
    now intros q [_ ?]. }
  assert (Hz : nth k zeros (0, 0) = (0, 0)) by apply nth_repeat.
  assert (N1 : nth_error D1 k = Some (0, 0)).
  { rewrite (nth_error_nth' D1 (0, 0)) by lia.
    now rewrite (put_rows_untouched _ _ _ _ _ _ I0 E1), Hz. }
  assert (N2 : nth_error D2 k = Some (0, 0)).
  { rewrite (nth_error_nth' D2 (0, 0)) by lia.
    now rewrite (put_rows_untouched _ _ _ _ _ _ I1 E2), Hz. }
  set (D := zipWith (fun a b : float * float => (fst a + fst b, snd a + snd b))
                    D1 D2).
  assert (ND : nth_error D k = Some (0 + 0, 0 + 0)).
  { subst D. now rewrite (nth_error_zipWith _ _ _ _ _ _ N1 N2). }
  destruct perpendicular; eexists; (split; [reflexivity|]);
    (erewrite nth_error_zipWith;
     [|exact ND|rewrite !nth_error_map, ND; reflexivity]);
    vm_compute; reflexivity.
Qed.

Lemma lineNormals2D_isolated_vertex_zero_witness :
  exists normals,
    lineNormals2D [(0, 0); (1, 0); (1, 1)] (Some [(0, 1)]%Z) false = Ok normals
    /\ nth_error normals 2 = Some (0, 0).
Proof.
  apply (lineNormals2D_isolated_vertex_zero [(0, 0); (1, 0); (1, 1)]
           (0, 1)%Z [] false 2).
  - simpl. lia.
  - simpl. lia.
  - simpl. repeat constructor; unfold index_in_range; simpl; lia.
  - unfold isolated_vertex, names_row. simpl.
    constructor; [split; intros [H|H]; discriminate|constructor].
Defined.

(** ** deleteHelper *)

Lemma subsequence_nil_l {A : Type} (l : list A) : subsequence [] l.
Proof. induction l; constructor; assumption. Qed.

Lemma keep_unmasked_subsequence {A : Type} (arr : list A) (m : list bool) :
  subsequence (keep_unmasked arr m) arr.
Proof.
  revert m. induction arr as [|a arr IH]; intros [|b m]; simpl;
    try apply subsequence_nil_l.
  destruct b; constructor; apply IH.
Qed.

(** X15.  [deleteHelper] returns [arr] unchanged, without raising, when
    [arr] is empty or when the indices are empty, be they an empty list, an
    empty array or an empty mask. *)
Theorem deleteHelper_empty_unchanged {A : Type} (arr_size : list A -> nat)
  (arr : list A) (indices : index_arg) :
  arr_size arr = 0%nat \/ empty_indices indices ->
  deleteHelper arr_size arr indices = Ok arr.
Proof.
  unfold deleteHelper. intros [H|H]; [now rewrite H|].
  destruct (arr_size arr =? 0)%nat; [reflexivity|].
  destruct indices as [l|l|m]; simpl in H; subst; simpl; trivial.
  now rewrite keep_unlisted_nil.
Qed.

Lemma deleteHelper_empty_unchanged_witness :
  deleteHelper (@length float) [1; 2; 3] (IdxList []) = Ok [1; 2; 3].
Proof.
  apply deleteHelper_empty_unchanged. right. reflexivity.
Defined.

(** X16.  Whatever the indices, what [deleteHelper] returns is [arr] with
    some entries left out, in their order. *)
Theorem deleteHelper_returns_subsequence {A : Type} (arr_size : list A -> nat)
  (arr : list A) (indices : index_arg) (r : list A) :
  deleteHelper arr_size arr indices = Ok r -> subsequence r arr.
Proof.
  unfold deleteHelper.
  destruct (arr_size arr =? 0)%nat; [intros [= <-]; apply subsequence_refl|].
  destruct (emptyNdarrayCheck_indices indices);
    [intros [= <-]; apply subsequence_refl|].
  unfold delete. destruct indices as [l|l|m].
  - destruct (for_each _ _ _); cbn [bind]; [|discriminate].
    intros [= <-]. apply keep_unlisted_subsequence.
  - destruct (for_each _ _ _); cbn [bind]; [|discriminate].
    intros [= <-]. apply keep_unlisted_subsequence.
  - destruct (_ =? _)%nat; [|discriminate].
    intros [= <-]. apply keep_unmasked_subsequence.
Qed.

Lemma deleteHelper_returns_subsequence_witness :
  subsequence [1; 3] [1; 2; 3].
Proof.
  apply (deleteHelper_returns_subsequence (@length float) [1; 2; 3]
           (IdxList [(-2)%Z])).
  vm_compute. reflexivity.
Defined.

(** ** pointDistances *)

Lemma binary_round_aux_sign (sx : bool) (mx ex : Z) (lx : SpecFloat.location) :
  SFcompare (binary_round_aux prec emax sx mx ex lx) (S754_zero false)
  = None
  \/ SFcompare (binary_round_aux prec emax sx mx ex lx) (S754_zero false)
     = Some (if sx then Lt else Gt)
  \/ SFcompare (binary_round_aux prec emax sx mx ex lx) (S754_zero false)
     = Some Eq.
Proof.
  unfold binary_round_aux.
  destruct (shr_fexp prec emax mx ex lx) as [mrs' e'].
  destruct (shr_fexp prec emax _ e' loc_Exact) as [mrs'' e''].
  destruct (shr_m mrs''); simpl; auto.
  destruct (Z.leb _ _); simpl; auto.
Qed.

(** A square root is never below zero. *)
Lemma sqrt_not_negative (x : float) : (PrimFloat.sqrt x <? 0) = false.
Proof.
  rewrite FloatAxioms.ltb_spec, sqrt_spec. unfold SFltb, SF64sqrt, SFsqrt.
  change (Prim2SF 0) with (S754_zero false).
  destruct (Prim2SF x) as [s|s| |s m e]; try destruct s; simpl; trivial.
  destruct (SFsqrt_core_binary prec emax (Z.pos m) e) as [[mz ez] lz].
  destruct (binary_round_aux_sign false mz ez lz) as [H|[H|H]];
    now rewrite H.
Qed.

(** X17.  [pointDistances] returns one distance per point, and none of
    them is negative. *)
Theorem pointDistances_one_per_point_not_negative (points : matrix) :
  length (pointDistances points) = length points
  /\ Forall (fun d => (d <? 0) = false) (pointDistances points).
Proof.
  split; [apply pointDistances_length|].
  unfold pointDistances. apply Forall_forall. intros d Hd.
  apply in_map_iff in Hd. destruct Hd as [i [<- _]].
  destruct (_ =? _)%nat; apply sqrt_not_negative.
Qed.

(** ** manuallyCompileValvePoints *)

Lemma get_interp_mat_var_none (mat_files : list mat_file) (numFrames : nat)
  (frameNum : Z) (mat_var : string) :
  held_by_none mat_var mat_files ->
  get_interp_mat_var mat_files numFrames frameNum mat_var = Returned None.
Proof.
  induction 1 as [|file files Hf _ IH]; cbn [get_interp_mat_var];
    [reflexivity|].
  now rewrite Hf.
Qed.

Lemma get_interp_mat_var_first (pre post : list mat_file) (file : mat_file)
  (numFrames : nat) (frameNum : Z) (mat_var : string) :
  held_by_none mat_var pre ->
  get_interp_mat_var (pre ++ file :: post) numFrames frameNum mat_var
  = match lookup_var ("point_coords_" ++ mat_var) file with
    | Some a =>
        result <~ lift (interpTime a numFrames) ;;
        t <~ lift (frame_at result frameNum) ;;
        Returned (Some (np_squeeze_table t))
    | None => get_interp_mat_var post numFrames frameNum mat_var
    end.
Proof.
  induction 1 as [|file' files Hf _ IH]; cbn [get_interp_mat_var app];
    [reflexivity|].
  now rewrite Hf.
Qed.

(** The four steps of the call, when it returns. *)
Lemma manuallyCompileValvePoints_returned (mat_files : list mat_file)
  (numFrames : nat) (frameNum : Z) (mv : list matrix) (tv av pv : landmark) :
  manuallyCompileValvePoints mat_files numFrames frameNum
  = Returned (mv, tv, av, pv) ->
  each_file (mv_of_file numFrames frameNum) mat_files = Returned mv
  /\ (exists _tv, get_interp_mat_var mat_files numFrames frameNum "tv"
                  = Returned _tv /\ tv = or_zeros _tv)
  /\ (exists _av, get_interp_mat_var mat_files numFrames frameNum "av"
                  = Returned _av /\ av = or_zeros _av)
  /\ (exists _pv, get_interp_mat_var mat_files numFrames frameNum "pv"
                  = Returned _pv /\ pv = or_zeros _pv).
Proof.
  unfold manuallyCompileValvePoints.
  destruct (each_file _ _) as [mv'| |]; cbn [bind_outcome]; try discriminate.
  destruct (get_interp_mat_var _ _ _ "tv") as [t| |]; cbn [bind_outcome];
    try discriminate.
  destruct (get_interp_mat_var _ _ _ "av") as [a| |]; cbn [bind_outcome];
    try discriminate.
  destruct (get_interp_mat_var _ _ _ "pv") as [p| |]; cbn [bind_outcome];
    try discriminate.
  intros [= <- <- <- <-]. eauto 10.
Qed.

(** X18.  A landmark among the tricuspid, aortic and pulmonary ones whose
    variable no file holds comes back as the [2 x 3] array of zeros. *)
Theorem manuallyCompileValvePoints_absent_landmark_zeros
  (mat_files : list mat_file) (numFrames : nat) (frameNum : Z)
  (mv : list matrix) (tv av pv : landmark) :
  manuallyCompileValvePoints mat_files numFrames frameNum
  = Returned (mv, tv, av, pv) ->
  (held_by_none "tv" mat_files -> tv = Table (mk_table 2 3 zeros_2x3))
  /\ (held_by_none "av" mat_files -> av = Table (mk_table 2 3 zeros_2x3))
  /\ (held_by_none "pv" mat_files -> pv = Table (mk_table 2 3 zeros_2x3)).
Proof.
  intros H. apply manuallyCompileValvePoints_returned in H.
  destruct H as [_ [[t [Ht ->]] [[a [Ha ->]] [p [Hp ->]]]]].
  repeat split; intros Hn;
    rewrite (get_interp_mat_var_none _ numFrames frameNum _ Hn) in *.
  - injection Ht as <-. reflexivity.
  - injection Ha as <-. reflexivity.
  - injection Hp as <-. reflexivity.
Qed.

Lemma manuallyCompileValvePoints_absent_landmark_zeros_witness :
  (held_by_none "tv" [file_2CH] ->
   Table (mk_table 2 3 zeros_2x3) = Table (mk_table 2 3 zeros_2x3))
  /\ (held_by_none "av" [file_2CH] ->
      Table (mk_table 2 3 zeros_2x3) = Table (mk_table 2 3 zeros_2x3))
  /\ (held_by_none "pv" [file_2CH] ->
      Table (mk_table 2 3 zeros_2x3) = Table (mk_table 2 3 zeros_2x3)).
Proof.
  apply (manuallyCompileValvePoints_absent_landmark_zeros [file_2CH] 2 1
           [[[2; 102; 202]; [12; 112; 212]]]).
  vm_compute. reflexivity.
Defined.

(** X19.  A landmark among the tricuspid, aortic and pulmonary ones is
    read from the first file that holds its variable: it is frame [frameNum]
    of the interpolation of that file's track, squeezed, whatever the later
    files hold. *)
Theorem manuallyCompileValvePoints_first_holder_decides
  (pre post : list mat_file) (file : mat_file) (a : ndarray3)
  (numFrames : nat) (frameNum : Z) (mv : list matrix) (tv av pv : landmark) :
  manuallyCompileValvePoints (pre ++ file :: post) numFrames frameNum
  = Returned (mv, tv, av, pv) ->
  (held_by_none "tv" pre -> lookup_var "point_coords_tv" file = Some a ->
   frame_of_track a numFrames frameNum tv)
  /\ (held_by_none "av" pre -> lookup_var "point_coords_av" file = Some a ->
      frame_of_track a numFrames frameNum av)
  /\ (held_by_none "pv" pre -> lookup_var "point_coords_pv" file = Some a ->
      frame_of_track a numFrames frameNum pv).
Proof.
  intros H. apply manuallyCompileValvePoints_returned in H.
  destruct H as [_ [[t [Ht ->]] [[a' [Ha ->]] [p [Hp ->]]]]].
  assert (G : forall mat_var v,
             held_by_none mat_var pre ->
             lookup_var ("point_coords_" ++ mat_var) file = Some a ->
             get_interp_mat_var (pre ++ file :: post) numFrames frameNum mat_var
             = Returned v ->
             frame_of_track a numFrames frameNum (or_zeros v)).
  { intros mat_var v Hn Hl. rewrite (get_interp_mat_var_first _ _ _ _ _ _ Hn), Hl.
    unfold frame_of_track.
    destruct (interpTime a numFrames) as [result|e]; cbn [lift bind_outcome];
      [|discriminate].
    destruct (frame_at result frameNum) as [t'|e] eqn:Et;
      cbn [lift bind_outcome]; [|discriminate].
    intros [= <-]. exists result, t'. repeat split; trivial. }
  repeat split; intros Hn Hl; eapply G; eauto.
Qed.

Lemma manuallyCompileValvePoints_first_holder_decides_witness :
  (held_by_none "tv" [file_2CH] ->
   lookup_var "point_coords_tv" file_4CH = Some tv_track ->
   frame_of_track tv_track 2 1
     (Table (mk_table 2 3 [[8; 108; 208]; [18; 118; 218]])))
  /\ (held_by_none "av" [file_2CH] ->
      lookup_var "point_coords_av" file_4CH = Some tv_track ->
      frame_of_track tv_track 2 1 (Table (mk_table 2 3 zeros_2x3)))
  /\ (held_by_none "pv" [file_2CH] ->
      lookup_var "point_coords_pv" file_4CH = Some tv_track ->
      frame_of_track tv_track 2 1 (Table (mk_table 2 3 zeros_2x3))).
Proof.
  apply (manuallyCompileValvePoints_first_holder_decides [file_2CH] [] file_4CH
           tv_track 2 1
           [[[2; 102; 202]; [12; 112; 212]]; [[2; 102; 202]; [12; 112; 212]]]).
  vm_compute. reflexivity.
Defined.

Lemma each_file_returned {A B : Type} (f : A -> outcome B) (files : list A)
  (bs : list B) :
  each_file f files = Returned bs
  <-> Forall2 (fun file b => f file = Returned b) files bs.
Proof.
  revert bs. induction files as [|file files IH]; intros bs; simpl.
  - split; [intros [= <-]; constructor|]. intros H. now inversion H.
  - destruct (f file) as [b| |] eqn:E; cbn [bind_outcome];
      try (split; [discriminate|intros H; inversion H; congruence]).
    destruct (each_file f files) as [bs'| |] eqn:E'; cbn [bind_outcome];
      try (split; [discriminate|]; intros H; inversion H; subst;
           match goal with
           | H' : Forall2 _ files _ |- _ => apply IH in H'; discriminate
           end).
    split.
    + intros [= <-]. constructor; [exact E|]. now apply IH.
    + intros H. inversion H as [|? b0 ? bs0 Hb Hbs]; subst.
      apply IH in Hbs. congruence.
Qed.

Lemma mv_of_file_returned (numFrames : nat) (frameNum : Z) (file : mat_file)
  (m : matrix) :
  mv_of_file numFrames frameNum file = Returned m
  <-> mv_slice_of numFrames frameNum file m.
Proof.
  unfold mv_of_file, mv_slice_of. split.
  - destruct (lookup_var var_mv file) as [a|]; [|discriminate].
    destruct (interpTime a numFrames) as [tmp|e] eqn:Ei;
      cbn [lift bind_outcome]; [|discriminate].
    destruct (frame_at tmp frameNum) as [t|e] eqn:Ef;
      cbn [lift bind_outcome]; [|discriminate].
    destruct (assign_2x3 t) as [m'|e] eqn:Ea; cbn [lift]; [|discriminate].
    intros [= <-]. exists a, tmp, t. auto.
  - intros [a [tmp [t [-> [-> [Hf Ha]]]]]]. cbn [lift bind_outcome].
    rewrite Hf. cbn [lift bind_outcome]. now rewrite Ha.
Qed.

Lemma assign_2x3_shape (t : table) (m : matrix) :
  assign_2x3 t = Ok m ->
  length m = 2%nat /\ Forall (fun r => length r = 3%nat) m.
Proof.
  unfold assign_2x3. destruct (_ && _); [|discriminate].
  intros [= <-]. split; [reflexivity|]. repeat constructor.
Qed.

(** X20.  When the call returns, [mv] holds one slice per file, in the
    order of the files: each is a [2 x 3] array, frame [frameNum] of the
    interpolation of that file's mitral track. *)
Theorem manuallyCompileValvePoints_mv_one_slice_per_file
  (mat_files : list mat_file) (numFrames : nat) (frameNum : Z)
  (mv : list matrix) (tv av pv : landmark) :
  manuallyCompileValvePoints mat_files numFrames frameNum
  = Returned (mv, tv, av, pv) ->
  Forall2 (mv_slice_of numFrames frameNum) mat_files mv
  /\ Forall (fun m => length m = 2%nat
                      /\ Forall (fun r => length r = 3%nat) m) mv.
Proof.
  intros H. apply manuallyCompileValvePoints_returned in H.
  destruct H as [H _]. apply each_file_returned in H.
  assert (G : Forall2 (mv_slice_of numFrames frameNum) mat_files mv).
  { eapply Forall2_impl; [|exact H]. intros file m. apply mv_of_file_returned. }
  split; [exact G|].
  clear H. induction G as [|file m files ms Hm _ IH]; constructor; [|exact IH].
  destruct Hm as [a [tmp [t [_ [_ [_ Ha]]]]]]. now apply assign_2x3_shape in Ha.
Qed.

Lemma manuallyCompileValvePoints_mv_one_slice_per_file_witness :
  Forall2 (mv_slice_of 2 1) [file_2CH; file_4CH]
          [[[2; 102; 202]; [12; 112; 212]]; [[2; 102; 202]; [12; 112; 212]]]
  /\ Forall (fun m => length m = 2%nat
                      /\ Forall (fun r => length r = 3%nat) m)
            [[[2; 102; 202]; [12; 112; 212]]; [[2; 102; 202]; [12; 112; 212]]].
Proof.
  eapply (manuallyCompileValvePoints_mv_one_slice_per_file
            [file_2CH; file_4CH] 2 1).
  vm_compute. reflexivity.
Defined.

(** The files before [file] all give their mitral slice. *)
Lemma each_file_app {A B : Type} (f : A -> outcome B) (pre post : list A)
  (file : A) :
  (exists bs, Forall2 (fun x b => f x = Returned b) pre bs) ->
  each_file f (pre ++ file :: post)
  = match f file with
    | Returned b =>
        match each_file f (pre ++ file :: post) with
        | Returned bs => Returned bs
        | Raised e => Raised e
        | KeyError k => KeyError k
        end
    | Raised e => Raised e
    | KeyError k => KeyError k
    end.
Proof.
  intros [bs H]. induction H as [|x b pre bs Hx _ IH]; simpl.
  - destruct (f file); cbn [bind_outcome]; trivial.
    now destruct (each_file f post).
  - rewrite Hx. cbn [bind_outcome].
    destruct (f file) eqn:E.
    + destruct (each_file f (pre ++ file :: post)); reflexivity.
    + rewrite IH. reflexivity.
    + rewrite IH. reflexivity.
Qed.

Lemma each_file_fails_at {A B : Type} (f : A -> outcome B) (pre post : list A)
  (file : A) :
  fails (f file) -> fails (each_file f (pre ++ file :: post)).
Proof.
  intros Hf. induction pre as [|x pre IH]; simpl.
  - destruct (f file); cbn [bind_outcome]; simpl in *; trivial. contradiction.
  - destruct (f x); cbn [bind_outcome]; simpl; trivial.
    destruct (each_file f (pre ++ file :: post)); cbn [bind_outcome]; simpl in *;
      trivial.
Qed.

Lemma manuallyCompileValvePoints_fails_with_mv (mat_files : list mat_file)
  (numFrames : nat) (frameNum : Z) :
  fails (each_file (mv_of_file numFrames frameNum) mat_files) ->
  manuallyCompileValvePoints mat_files numFrames frameNum
  = match each_file (mv_of_file numFrames frameNum) mat_files with
    | Returned _ => manuallyCompileValvePoints mat_files numFrames frameNum
    | Raised e => Raised e
    | KeyError k => KeyError k
    end.
Proof.
  unfold manuallyCompileValvePoints.
  destruct (each_file _ _); simpl; trivial.
Qed.

(** X21.  A file without the variable [point_coords_mv] makes the call
    fail; the failure is the [KeyError] of that variable when every file
    before it gives its mitral slice. *)
Theorem manuallyCompileValvePoints_missing_mv_fails
  (pre post : list mat_file) (file : mat_file) (numFrames : nat)
  (frameNum : Z) :
  lookup_var var_mv file = None ->
  fails (manuallyCompileValvePoints (pre ++ file :: post) numFrames frameNum)
  /\ ((exists mvs, Forall2 (mv_slice_of numFrames frameNum) pre mvs) ->
      manuallyCompileValvePoints (pre ++ file :: post) numFrames frameNum
      = KeyError var_mv).
Proof.
  intros Hl.
  assert (Hf : mv_of_file numFrames frameNum file = KeyError var_mv)
    by (unfold mv_of_file; now rewrite Hl).
  assert (Hfail : fails (each_file (mv_of_file numFrames frameNum)
                           (pre ++ file :: post)))
    by (apply each_file_fails_at; now rewrite Hf).
  rewrite (manuallyCompileValvePoints_fails_with_mv _ _ _ Hfail).
  split.
  - destruct (each_file _ _); simpl in *; trivial; contradiction.
  - intros [mvs Hm]. rewrite each_file_app, Hf; [reflexivity|].
    exists mvs. eapply Forall2_impl; [|exact Hm].
    intros f m. apply mv_of_file_returned.
Qed.

Lemma manuallyCompileValvePoints_missing_mv_fails_witness :
  fails (manuallyCompileValvePoints
           ([file_2CH] ++ [("point_coords_tv"%string, tv_track)] :: []) 2 1)
  /\ ((exists mvs, Forall2 (mv_slice_of 2 1) [file_2CH] mvs) ->
      manuallyCompileValvePoints
        ([file_2CH] ++ [("point_coords_tv"%string, tv_track)] :: []) 2 1
      = KeyError var_mv).
Proof.
  apply manuallyCompileValvePoints_missing_mv_fails. reflexivity.
Defined.







(** ** calculate_area_of_polygon_3d on a normal along the x axis *)

Lemma Prim2SF_nan (x : float) : Prim2SF x = S754_nan -> x = nan.
Proof. intros H. rewrite <- (SF2Prim_Prim2SF x), H. reflexivity. Qed.

Lemma mul_nan_l (x : float) : nan * x = nan.
Proof. apply Prim2SF_nan. rewrite mul_spec. reflexivity. Qed.

Lemma mul_nan_r (x : float) : x * nan = nan.
Proof.
  apply Prim2SF_nan. rewrite mul_spec.
  change (Prim2SF nan) with S754_nan.
  now destruct (Prim2SF x) as [s|s| |s m e].
Qed.

Lemma zero_or_nan_cases (x : float) :
  zero_or_nan x ->
  (exists s, Prim2SF x = S754_zero s) \/ Prim2SF x = S754_nan.
Proof. intros [H| ->]; [now left|now right]. Qed.

Lemma zero_or_nan_of (x : float) :
  (exists s, Prim2SF x = S754_zero s) \/ Prim2SF x = S754_nan ->
  zero_or_nan x.
Proof. intros [H|H]; [now left|right; now apply Prim2SF_nan]. Qed.

Lemma mul_zero_zero_or_nan (a : float) : zero_or_nan (a * 0).
Proof.
  apply zero_or_nan_of. rewrite mul_spec.
  change (Prim2SF 0) with (S754_zero false).
  destruct (Prim2SF a) as [s|s| |s m e]; cbn; eauto.
Qed.

Lemma zero_or_nan_zero : zero_or_nan 0.
Proof. left. exists false. reflexivity. Qed.

Lemma zero_or_nan_sub (x y : float) :
  zero_or_nan x -> zero_or_nan y -> zero_or_nan (x - y).
Proof.
  intros Hx Hy. apply zero_or_nan_cases in Hx, Hy.
  apply zero_or_nan_of. rewrite sub_spec.
  destruct Hx as [[sx ->]| ->], Hy as [[sy ->]| ->]; cbn; eauto;
    try destruct sx; try destruct sy; cbn; eauto.
Qed.

Lemma zero_or_nan_add (x y : float) :
  zero_or_nan x -> zero_or_nan y -> zero_or_nan (x + y).
Proof.
  intros Hx Hy. apply zero_or_nan_cases in Hx, Hy.
  apply zero_or_nan_of. rewrite add_spec.
  destruct Hx as [[sx ->]| ->], Hy as [[sy ->]| ->]; cbn; eauto;
    try destruct sx; try destruct sy; cbn; eauto.
Qed.

Lemma zero_or_nan_mul (x y : float) :
  zero_or_nan x -> zero_or_nan y -> zero_or_nan (x * y).
Proof.
  intros Hx Hy. apply zero_or_nan_cases in Hx, Hy.
  apply zero_or_nan_of. rewrite mul_spec.
  destruct Hx as [[sx ->]| ->], Hy as [[sy ->]| ->]; cbn; eauto.
Qed.

Lemma zero_or_nan_sqrt (x : float) : zero_or_nan x -> zero_or_nan (sqrt x).
Proof.
  intros Hx. apply zero_or_nan_cases in Hx.
  apply zero_or_nan_of. rewrite sqrt_spec.
  destruct Hx as [[sx ->]| ->]; cbn; eauto.
Qed.

(** Zero over zero, and anything with a NaN, is a NaN. *)
Lemma zero_or_nan_div (x y : float) :
  zero_or_nan x -> zero_or_nan y -> x / y = nan.
Proof.
  intros Hx Hy. apply zero_or_nan_cases in Hx, Hy.
  apply Prim2SF_nan. rewrite div_spec.
  destruct Hx as [[sx ->]| ->], Hy as [[sy ->]| ->]; reflexivity.
Qed.

Lemma projection_axes_x_normal (a : float) :
  projection_axes (a, 0, 0) = ((nan, nan, nan), (nan, nan, nan)).
Proof.
  unfold projection_axes.
  assert (H2 : normalized (np_cross (a, 0, 0) (1, 0, 0)) = (nan, nan, nan)).
  { unfold np_cross, normalized, list_of_vec3, linalg_norm, sum.
    cbn [map fold_left].
    pose proof (mul_zero_zero_or_nan a) as Ha.
    pose proof zero_or_nan_zero as H0.
    assert (C0 : zero_or_nan (0 * 0 - 0 * 0)) by (left; exists false; reflexivity).
    assert (C1 : zero_or_nan (0 * 1 - a * 0))
      by (apply zero_or_nan_sub; [left; exists false; reflexivity|exact Ha]).
    assert (C2 : zero_or_nan (a * 0 - 0 * 0))
      by (apply zero_or_nan_sub; [exact Ha|left; exists false; reflexivity]).
    set (c0 := 0 * 0 - 0 * 0) in *. set (c1 := 0 * 1 - a * 0) in *.
    set (c2 := a * 0 - 0 * 0) in *.
    assert (N : zero_or_nan (sqrt (0 + c0 * c0 + c1 * c1 + c2 * c2))).
    { apply zero_or_nan_sqrt. repeat apply zero_or_nan_add; trivial;
        now apply zero_or_nan_mul. }
    now rewrite !zero_or_nan_div by assumption. }
  rewrite H2. unfold np_cross, normalized, list_of_vec3, linalg_norm, sum.
  cbn [map fold_left]. rewrite !mul_nan_l. reflexivity.
Qed.

Lemma dot_nan (d : vec) : length d = 3%nat -> dot d [nan; nan; nan] = nan.
Proof.
  destruct d as [|d0 [|d1 [|d2 [|]]]]; try discriminate. intros _.
  unfold dot, sum, zipWith. cbn [combine map fold_left fst snd].
  rewrite !mul_nan_r. reflexivity.
Qed.

(** X23.  With a normal along the x axis, [(a, 0, 0)], the construction
    of the basis divides zero by zero: no exception is raised, and every
    vertex handed to the polygon area has NaN for both coordinates, whatever
    the points are. *)
Theorem calculate_area_of_polygon_3d_x_normal_nan
  (polygon_area : list (float * float) -> result float) (points : matrix)
  (a : float) :
  three_columns points ->
  calculate_area_of_polygon_3d polygon_area points (a, 0, 0)
  = polygon_area (map (fun _ => (nan, nan)) points).
Proof.
  intros H3. unfold calculate_area_of_polygon_3d.
  destruct (three_columns_checks points H3) as [_ ->].
  f_equal. unfold projected. rewrite projection_axes_x_normal.
  cbn [list_of_vec3].
  apply map_ext_in. intros r Hr.
  assert (Hd : length (sub r (map (fun k => mean (column points k))
                                  (seq 0 (shape1 points)))) = 3%nat).
  { unfold sub. rewrite zipWith_length, length_map, length_seq.
    unfold three_columns in H3. rewrite Forall_forall in H3.
    rewrite (H3 r Hr). unfold shape1.
    destruct points as [|p points]; [destruct Hr|]. simpl hd.
    rewrite (H3 p (or_introl eq_refl)). reflexivity. }
  now rewrite (dot_nan _ Hd).
Qed.

Lemma calculate_area_of_polygon_3d_x_normal_nan_witness :
  calculate_area_of_polygon_3d (fun _ => Ok 0)
    [[0; 0; 0]; [0; 2; 0]; [0; 2; 2]; [0; 0; 2]] (1, 0, 0)
  = (fun _ => Ok 0)
      (map (fun _ => (nan, nan)) [[0; 0; 0]; [0; 2; 0]; [0; 2; 2]; [0; 0; 2]]).
Proof.
  apply (calculate_area_of_polygon_3d_x_normal_nan (fun _ => Ok 0)).
  repeat constructor.
Defined.
